(** * The fetch / validate / persist pipeline of [script_fetch_data/fetch_posts.py]

    A shallow embedding of [fetch_post], [fetch_all_posts], [save_to_db],
    [save_to_csv] and [main], followed by the properties of the pipeline.

    The three libraries the script talks to are modelled at their interface:
    - aiohttp: a session is an oracle from the requested URL to what the
      request does (how long it takes, and whether it raises or answers);
    - sqlite3: a connection holds the durable [posts] table and the view of
      the open transaction;
    - csv: the export file is the sequence of records handed to the
      underlying writer.  *)

From stdpp Require Import gmap strings list fin_maps pretty.
From Stdlib Require Import ZArith.

Set Warnings "-register-all".
Set Default Proof Using "Type".

(** ** Values *)

(** What [response.json()] can produce.  Python's [None] is [JNull]: a JSON
    [null] body decodes to the very object the fetcher uses as its failure
    marker.  Numbers are the integers (floating point is left out). *)
Inductive Json :=
| JNull
| JBool (b : bool)
| JInt (z : Z)
| JStr (s : string)
| JArr (l : list Json)
| JObj (m : gmap string Json).

Abbreviation PyNone := JNull (only parsing).

Definition is_not_None (v : Json) : bool :=
  match v with JNull => false | _ => true end.

(** [bool(v)] *)
Definition truthy (v : Json) : bool :=
  match v with
  | JNull => false
  | JBool b => b
  | JInt z => negb (z =? 0)%Z
  | JStr s => negb (String.eqb s EmptyString)
  | JArr l => match l with [] => false | _ => true end
  | JObj m => negb (bool_decide (m = ∅))
  end.

(** [needle in hay] on two [str] *)
Fixpoint str_contains (needle hay : string) : bool :=
  String.prefix needle hay ||
  match hay with
  | EmptyString => false
  | String _ hay' => str_contains needle hay'
  end.

(** An element of the identifier batch: [range(start, end + 1)] yields
    integers, the fault-injection list yields strings. *)
Inductive Identifier :=
| IdInt (n : Z)
| IdStr (s : string).

(** [f"{post_id}"] *)
Definition format_id (post_id : Identifier) : string :=
  match post_id with
  | IdInt n => pretty n
  | IdStr s => s
  end.

(** ** Exceptions *)

Inductive sqlite_error :=
| UnsupportedType      (* a bound parameter is neither None, int nor str *)
| DatatypeMismatch     (* a value that is no integer given for the rowid *)
| DatabaseFull         (* no rowid left to assign *)
| OperationalError (detail : string).  (* the storage itself is unavailable *)

(** Instances of [Exception].  [TimeoutError] is [asyncio.TimeoutError];
    [ClientError] stands for every other exception the HTTP client raises
    (connection, DNS, payload decoding) together with its text.  The
    built-in exceptions raised inside the sinks are identified by class. *)
Inductive exn :=
| TimeoutError
| ClientError (detail : string)
| TypeError
| KeyError
| AttributeError
| ValueError
| OverflowError
| Sqlite3Error (e : sqlite_error).

(** ** Log records

    One constructor per [logger] call of the script, holding the values the
    call interpolates into its message. *)
Inductive log_record :=
| ErrExpectedJson (content_type url : string)
| ErrResponseStatus (url : string) (status : Z)
| ErrTimeout (url : string)
| ErrException (url : string) (e : exn)
| InfoFetchedCount (fetched succeeded failed : nat)
| InfoSavedToDatabase
| InfoSavedToCsv.

(** ** The relational store *)

(** Values as bound to a statement. *)
Inductive SqlValue :=
| SqlNull
| SqlInteger (z : Z)
| SqlText (s : string).

(** A row of [posts] without its key: [user_id], [title], [body], as bound. *)
Definition Row : Type := SqlValue * SqlValue * SqlValue.

(** [posts], keyed by [id INTEGER PRIMARY KEY]. *)
Abbreviation Table := (gmap Z Row).

(** The module-level [conn]: [durable] is what has been committed, [working]
    is what the connection sees (committed rows and those of the open
    transaction), [unavailable] is set when the storage cannot be used. *)
Record Connection := {
  durable : Table;
  working : Table;
  unavailable : option string;
}.

(** ** The tabular export *)

(** A record of the export: its fields in column order. *)
Abbreviation CsvRecord := (list Json).

(** ** Program state *)

Record World := {
  conn : Connection;
  csv_file : option (list CsvRecord);   (* [None]: [posts.csv] does not exist *)
  log : list log_record;
}.

Definition set_conn (c : Connection) (w : World) : World :=
  {| conn := c; csv_file := csv_file w; log := log w |}.
Definition set_csv_file (f : option (list CsvRecord)) (w : World) : World :=
  {| conn := conn w; csv_file := f; log := log w |}.
Definition add_log (r : log_record) (w : World) : World :=
  {| conn := conn w; csv_file := csv_file w; log := log w ++ [r] |}.

(** ** Computations

    A computation runs on the program state and returns, raises, or stays
    blocked on an [await] that never completes. *)
Inductive result (A : Type) :=
| Return (v : A)
| Raise (e : exn)
| Blocked.
Arguments Return {A} v.
Arguments Raise {A} e.
Arguments Blocked {A}.

Definition M (A : Type) : Type := World → result A * World.

Definition ret {A} (v : A) : M A := λ w, (Return v, w).
Definition raise {A} (e : exn) : M A := λ w, (Raise e, w).
Definition blocked {A} : M A := λ w, (Blocked, w).
Definition bind {A B} (c : M A) (k : A → M B) : M B :=
  λ w, match c w with
       | (Return v, w') => k v w'
       | (Raise e, w') => (Raise e, w')
       | (Blocked, w') => (Blocked, w')
       end.

#[export] Instance M_ret : MRet M := @ret.
#[export] Instance M_bind : MBind M := λ A B k c, bind c k.

(** [try: body  except Exception as e: handler e] *)
Definition try_except {A} (body : M A) (handler : exn → M A) : M A :=
  λ w, match body w with
       | (Raise e, w') => handler e w'
       | r => r
       end.

(** A step that depends on the program state only through its result. *)
Definition lift {A} (r : exn + A) : M A :=
  match r with
  | inl e => raise e
  | inr v => ret v
  end.

(** [pure c r]: [c] ends as [r] and changes nothing. *)
Definition pure {A} (c : M A) (r : result A) : Prop := ∀ w, c w = (r, w).

Definition get_world : M World := λ w, (Return w, w).
Definition modify (f : World → World) : M unit := λ w, (Return tt, f w).
Definition logger (r : log_record) : M unit := modify (add_log r).

(** ** The network *)

(** A response: [headers] maps a header name, in the spelling the script
    asks for, to its value. *)
Record Response := {
  status : Z;
  headers : gmap string string;
  json : exn + Json;      (* what [await response.json()] does *)
}.

(** What one request does: after [elapsed] time units it either raises or
    yields a response. *)
Record Attempt := {
  elapsed : N;
  outcome : exn + Response;
}.

Definition ClientSession : Type := string → Attempt.

(** [session.get(url, timeout=timeout)] *)
Definition session_get (session : ClientSession) (url : string) (timeout : N)
  : M Response :=
  let a := session url in
  if (timeout <? elapsed a)%N then raise TimeoutError
  else match outcome a with
       | inl e => raise e
       | inr response => ret response
       end.

(** [response.headers.get(name, default)] *)
Definition headers_get (h : gmap string string) (name default : string) : string :=
  match h !! name with Some v => v | None => default end.

(** [await response.json()] *)
Definition response_json (response : Response) : M Json :=
  lift (json response).

(** ** The fetcher *)

Definition fetch_post (session : ClientSession) (base_url : string)
    (post_id : Identifier) : M Json :=
  let url := base_url +:+ format_id post_id in
  try_except
    (response ← session_get session url 5;
     if (status response =? 200)%Z then
       let content_type := headers_get (headers response) "Content-Type" EmptyString in
       if str_contains "application/json" content_type then
         response_json response
       else
         (logger (ErrExpectedJson content_type url) ;;
          ret PyNone)
     else
       (logger (ErrResponseStatus url (status response)) ;;
        ret PyNone))
    (λ e,
       match e with
       | TimeoutError =>
           logger (ErrTimeout url) ;;
           ret PyNone
       | _ =>
           logger (ErrException url e) ;;
           ret PyNone
       end).

(** ** The orchestrator *)

(** The event loop completes the tasks in the order [schedule] lists their
    positions; each completion stores the task's result in its own slot. *)
Fixpoint run_tasks (tasks : list (M Json)) (schedule : list nat)
    (slots : list (option Json)) : M (list (option Json)) :=
  match schedule with
  | [] => ret slots
  | i :: schedule' =>
      match tasks !! i, slots !! i with
      | Some task, Some None =>
          r ← task;
          run_tasks tasks schedule' (<[i := Some r]> slots)
      | _, _ => run_tasks tasks schedule' slots
      end
  end.

(** [await asyncio.gather] over [tasks]: returns once every slot is filled, with
    the results in the order of [tasks]. *)
Definition gather (schedule : list nat) (tasks : list (M Json)) : M (list Json) :=
  slots ← run_tasks tasks schedule (replicate (length tasks) None);
  match mapM id slots with
  | Some results => ret results
  | None => blocked
  end.

(** [[result for result in results if result is not None]] *)
Definition valid_results (results : list Json) : list Json :=
  List.filter is_not_None results.

Definition fetch_all_posts (session : ClientSession) (schedule : list nat)
    (base_url : string) (post_ids : list Identifier) : M (list Json) :=
  let tasks := map (fetch_post session base_url) post_ids in
  results ← gather schedule tasks;
  let valid_results := valid_results results in
  logger (InfoFetchedCount (length post_ids) (length valid_results)
            (length post_ids - length valid_results)) ;;
  ret valid_results.

(** ** Python operations used by the sinks *)

(** [key in post]: membership in a dict, a list or a str; the other values
    are no containers. *)
Definition contains (key : string) (post : Json) : exn + bool :=
  match post with
  | JObj m => inr (bool_decide (is_Some (m !! key)))
  | JArr l =>
      inr (existsb (λ x, match x with JStr s => String.eqb s key | _ => false end) l)
  | JStr s => inr (str_contains key s)
  | JNull | JBool _ | JInt _ => inl TypeError
  end.

(** [post[key]] for a [str] key: only a dict can be indexed by a str. *)
Definition getitem (post : Json) (key : string) : exn + Json :=
  match post with
  | JObj m =>
      match m !! key with
      | Some v => inr v
      | None => inl KeyError
      end
  | _ => inl TypeError
  end.

Definition py_in (key : string) (post : Json) : M bool := lift (contains key post).
Definition py_getitem (post : Json) (key : string) : M Json := lift (getitem post key).

(** ** The relational sink *)

Definition required_keys : list string := ["id"; "userId"; "title"; "body"].

(** The inner [for key in ...] loop: the value of [all_keys_exist] when the
    loop is left. *)
Fixpoint all_keys_exist (keys : list string) (post : Json) : M bool :=
  match keys with
  | [] => ret true
  | key :: keys' =>
      present ← py_in key post;
      if negb present then ret false
      else all_keys_exist keys' post
  end.

(** The outer [for post in posts] loop, threading [valid_posts]. *)
Fixpoint collect_valid_posts (posts valid_posts : list Json) : M (list Json) :=
  match posts with
  | [] => ret valid_posts
  | post :: posts' =>
      if truthy post then
        ok ← all_keys_exist required_keys post;
        if (ok : bool) then collect_valid_posts posts' (valid_posts ++ [post])
        else collect_valid_posts posts' valid_posts
      else collect_valid_posts posts' valid_posts
  end.

(** [(post["id"], post["userId"], post["title"], post["body"])] *)
Definition post_tuple (post : Json) : M (Json * Json * Json * Json) :=
  id ← py_getitem post "id";
  user_id ← py_getitem post "userId";
  title ← py_getitem post "title";
  body ← py_getitem post "body";
  ret (id, user_id, title, body).

(** How sqlite3 binds a Python value. *)
Definition adapted (v : Json) : exn + SqlValue :=
  match v with
  | JNull => inr SqlNull
  | JBool b => inr (SqlInteger (if b then 1 else 0))
  | JInt z =>
      if ((- 2 ^ 63 <=? z) && (z <? 2 ^ 63))%Z then inr (SqlInteger z)
      else inl OverflowError
  | JStr s => inr (SqlText s)
  | JArr _ | JObj _ => inl (Sqlite3Error UnsupportedType)
  end.

Definition adapt (v : Json) : M SqlValue := lift (adapted v).

Definition bind_parameters (params : Json * Json * Json * Json)
  : M (SqlValue * SqlValue * SqlValue * SqlValue) :=
  let '(id, user_id, title, body) := params in
  id ← adapt id;
  user_id ← adapt user_id;
  title ← adapt title;
  body ← adapt body;
  ret (id, user_id, title, body).

Definition largest_rowid (t : Table) : option Z :=
  map_fold (λ k _ acc, Some (match acc with None => k | Some a => Z.max k a end))
    None t.

(** The key given to a row inserted with a NULL [id]: one more than the
    largest key in use, 1 in an empty table.  (When the largest key is the
    greatest 64-bit integer the engine probes random keys; the model gives
    up at once.) *)
Definition new_rowid (t : Table) : option Z :=
  match largest_rowid t with
  | None => Some 1%Z
  | Some k => if (k <? 2 ^ 63 - 1)%Z then Some (k + 1)%Z else None
  end.

Section Engine.

(** The integer the engine reads a text given for an INTEGER PRIMARY KEY
    as, if it reads it as one. *)
Variable rowid_of_text : string → option Z.

(** The key under which a row is stored, from the value bound for [id]. *)
Definition resolve_rowid (t : Table) (id : SqlValue) : exn + Z :=
  match id with
  | SqlInteger z => inr z
  | SqlNull =>
      match new_rowid t with
      | Some k => inr k
      | None => inl (Sqlite3Error DatabaseFull)
      end
  | SqlText s =>
      match rowid_of_text s with
      | Some k => inr k
      | None => inl (Sqlite3Error DatatypeMismatch)
      end
  end.

(** One step of [INSERT OR REPLACE INTO posts (id, user_id, title, body)
    VALUES (?, ?, ?, ?)] inside the open transaction. *)
Definition insert_or_replace (values : SqlValue * SqlValue * SqlValue * SqlValue)
  : M unit :=
  let '(id, user_id, title, body) := values in
  w ← get_world;
  let c := conn w in
  match unavailable c with
  | Some detail => raise (Sqlite3Error (OperationalError detail))
  | None =>
      rowid ← lift (resolve_rowid (working c) id);
      modify (set_conn {| durable := durable c;
                          working := <[rowid := (user_id, title, body)]> (working c);
                          unavailable := unavailable c |})
  end.

(** [cursor.executemany(sql, seq_of_parameters)] *)
Fixpoint cursor_executemany (seq_of_parameters : list (Json * Json * Json * Json))
  : M unit :=
  match seq_of_parameters with
  | [] => ret tt
  | params :: rest =>
      values ← bind_parameters params;
      insert_or_replace values ;;
      cursor_executemany rest
  end.

(** [conn.commit()] *)
Definition committed (w : World) : World :=
  set_conn {| durable := working (conn w);
              working := working (conn w);
              unavailable := unavailable (conn w) |} w.

Definition conn_commit : M unit := modify committed.

(** [conn.close()]: what was not committed is lost. *)
Definition closed (w : World) : World :=
  set_conn {| durable := durable (conn w);
              working := durable (conn w);
              unavailable := unavailable (conn w) |} w.

Definition conn_close : M unit := modify closed.

Definition save_to_db (posts : list Json) : M unit :=
  valid_posts ← collect_valid_posts posts [];
  seq_of_parameters ← mapM post_tuple valid_posts;
  cursor_executemany seq_of_parameters ;;
  conn_commit ;;
  logger InfoSavedToDatabase.

(** ** The tabular sink *)

Definition fieldnames : list string := ["id"; "userId"; "title"; "body"].

(** [DictWriter._dict_to_list], with the defaults [extrasaction="raise"] and
    [restval=""]. *)
Definition dict_to_list (rowdict : Json) : M CsvRecord :=
  match rowdict with
  | JObj m =>
      let wrong_fields : gset string := dom m ∖ list_to_set fieldnames in
      if bool_decide (wrong_fields = ∅) then
        ret (map (λ key, default (JStr EmptyString) (m !! key)) fieldnames)
      else raise ValueError
  | _ => raise AttributeError
  end.

(** [open(CSV_FILE, "w", ...)] *)
Definition open_w : M unit := modify (set_csv_file (Some [])).

(** [writer.writerow] of the underlying writer *)
Definition writer_writerow (record : CsvRecord) : M unit :=
  modify (λ w, set_csv_file (Some (default [] (csv_file w) ++ [record])) w).

Definition DictWriter_writerow (rowdict : Json) : M unit :=
  record ← dict_to_list rowdict;
  writer_writerow record.

Definition DictWriter_writeheader : M unit :=
  let header := JObj (list_to_map (zip fieldnames (JStr <$> fieldnames))) in
  DictWriter_writerow header.

(** [writer.writerows(map(self._dict_to_list, rowdicts))]: a record is
    written as soon as it has been built. *)
Fixpoint DictWriter_writerows (rowdicts : list Json) : M unit :=
  match rowdicts with
  | [] => ret tt
  | rowdict :: rest =>
      DictWriter_writerow rowdict ;;
      DictWriter_writerows rest
  end.

Definition save_to_csv (posts : list Json) : M unit :=
  open_w ;;
  DictWriter_writeheader ;;
  DictWriter_writerows posts ;;
  logger InfoSavedToCsv.

(** ** The pipeline *)

Definition main (session : ClientSession) (schedule : list nat)
    (base_url : string) (post_ids : list Identifier) : M unit :=
  posts ← fetch_all_posts session schedule base_url post_ids;
  match posts with
  | _ :: _ =>
      save_to_db posts ;;
      save_to_csv posts
  | [] => ret tt
  end.

(** [try: asyncio.run(main(...))  finally: conn.close()] *)
Definition run (session : ClientSession) (schedule : list nat)
    (base_url : string) (post_ids : list Identifier) : M unit :=
  λ w, let '(r, w') := main session schedule base_url post_ids w in
       (r, snd (conn_close w')).

End Engine.

(** ** Outcomes, as the design document names them

    The script has no outcome type: a fetch returns the decoded payload or
    [None], and says why in the log.  [FetchOutcome] names the cases,
    [returned] and [logged] give the value and the log records that stand
    for an outcome in the script. *)

Inductive FailureReason :=
| Timeout
| HttpStatus (code : Z)
| UnexpectedContentType (type : string)
| NetworkError (e : exn).

Inductive FetchOutcome :=
| Success (payload : Json)
| Failure (reason : FailureReason).

Definition returned (o : FetchOutcome) : Json :=
  match o with
  | Success payload => payload
  | Failure _ => PyNone
  end.

Definition logged (url : string) (o : FetchOutcome) : list log_record :=
  match o with
  | Success _ => []
  | Failure Timeout => [ErrTimeout url]
  | Failure (HttpStatus code) => [ErrResponseStatus url code]
  | Failure (UnexpectedContentType type) => [ErrExpectedJson type url]
  | Failure (NetworkError e) => [ErrException url e]
  end.

(** An exception reaching the handlers of [fetch_post]. *)
Definition caught (e : exn) : FetchOutcome :=
  match e with
  | TimeoutError => Failure Timeout
  | _ => Failure (NetworkError e)
  end.

(** The outcome of one request. *)
Definition classify (a : Attempt) : FetchOutcome :=
  if (5 <? elapsed a)%N then Failure Timeout
  else match outcome a with
       | inl e => caught e
       | inr response =>
           if (status response =? 200)%Z then
             let content_type :=
               headers_get (headers response) "Content-Type" EmptyString in
             if str_contains "application/json" content_type then
               match json response with
               | inr payload => Success payload
               | inl e => caught e
               end
             else Failure (UnexpectedContentType content_type)
           else Failure (HttpStatus (status response))
       end.

Definition request_url (base_url : string) (post_id : Identifier) : string :=
  base_url +:+ format_id post_id.

(** The outcome of the fetch built from [post_id]. *)
Definition outcome_of (session : ClientSession) (base_url : string)
    (post_id : Identifier) : FetchOutcome :=
  classify (session (request_url base_url post_id)).

(** [extractSuccesses] of the design document. *)
Definition extractSuccesses (outcomes : list FetchOutcome) : list Json :=
  omap (λ o, match o with Success payload => Some payload | Failure _ => None end)
    outcomes.

(** An outcome the script can tell apart from a failure. *)
Definition representable (o : FetchOutcome) : Prop :=
  match o with
  | Success payload => payload ≠ PyNone
  | Failure _ => True
  end.

Definition add_logs (records : list log_record) (w : World) : World :=
  {| conn := conn w; csv_file := csv_file w; log := log w ++ records |}.

(** The log records of a batch whose tasks complete in the order [schedule]. *)
Definition fetch_log (session : ClientSession) (base_url : string)
    (post_ids : list Identifier) (schedule : list nat) : list log_record :=
  schedule ≫= λ i,
    match post_ids !! i with
    | Some post_id =>
        logged (request_url base_url post_id) (outcome_of session base_url post_id)
    | None => []
    end.

(** The cases of a request, one rule per case. *)
Inductive classified (a : Attempt) : FetchOutcome → Prop :=
| classified_timeout :
    (5 < elapsed a)%N →
    classified a (Failure Timeout)
| classified_fault e :
    (elapsed a ≤ 5)%N → outcome a = inl e →
    classified a (caught e)
| classified_status response :
    (elapsed a ≤ 5)%N → outcome a = inr response →
    status response ≠ 200%Z →
    classified a (Failure (HttpStatus (status response)))
| classified_content_type response content_type :
    (elapsed a ≤ 5)%N → outcome a = inr response →
    status response = 200%Z →
    content_type = headers_get (headers response) "Content-Type" EmptyString →
    str_contains "application/json" content_type = false →
    classified a (Failure (UnexpectedContentType content_type))
| classified_payload response payload :
    (elapsed a ≤ 5)%N → outcome a = inr response →
    status response = 200%Z →
    str_contains "application/json"
      (headers_get (headers response) "Content-Type" EmptyString) = true →
    json response = inr payload →
    classified a (Success payload)
| classified_undecoded response e :
    (elapsed a ≤ 5)%N → outcome a = inr response →
    status response = 200%Z →
    str_contains "application/json"
      (headers_get (headers response) "Content-Type" EmptyString) = true →
    json response = inl e →
    classified a (caught e).

(** ** Payload shapes *)

(** A payload with all four required fields. *)
Definition complete (m : gmap string Json) : Prop :=
  ∀ key, key ∈ required_keys → is_Some (m !! key).

#[export] Instance complete_dec m : Decision (complete m).
Proof.
  refine (cast_if (decide (Forall (λ key, is_Some (m !! key)) required_keys)));
    unfold complete; by rewrite <- Forall_forall.
Defined.

(** The values [save_to_db] keeps in [valid_posts]: those that are true and
    on which the four [in] tests succeed. *)
Definition accepted (post : Json) : bool :=
  truthy post &&
  forallb (λ key, match contains key post with inr true => true | _ => false end)
    required_keys.

(** [params] is the tuple [save_to_db] builds from [post]. *)
Definition is_tuple_of (post : Json) (params : Json * Json * Json * Json) : Prop :=
  ∃ m id user_id title body,
    post = JObj m ∧
    m !! "id" = Some id ∧ m !! "userId" = Some user_id ∧
    m !! "title" = Some title ∧ m !! "body" = Some body ∧
    params = (id, user_id, title, body).

(** The row a payload is stored as, when its values can be bound. *)
Definition payload_row (m : gmap string Json) : option Row :=
  user_id ← m !! "userId";
  title ← m !! "title";
  body ← m !! "body";
  match adapted user_id, adapted title, adapted body with
  | inr user_id, inr title, inr body => Some (user_id, title, body)
  | _, _, _ => None
  end.

Section Keys.

Variable rowid_of_text : string → option Z.

(** The key a value given for [id] names, if it names one. *)
Definition explicit_rowid (id : Json) : option Z :=
  match id with
  | JInt z => Some z
  | JBool b => Some (if b then 1 else 0)%Z
  | JStr s => rowid_of_text s
  | _ => None
  end.

Definition payload_rowid (m : gmap string Json) : option Z :=
  m !! "id" ≫= explicit_rowid.

End Keys.

(** The state after one row has been written under [rowid]. *)
Definition with_row (rowid : Z) (row : Row) (w : World) : World :=
  set_conn {| durable := durable (conn w);
              working := <[rowid := row]> (working (conn w));
              unavailable := unavailable (conn w) |} w.

(** The first record of the export. *)
Definition header_record : CsvRecord := JStr <$> fieldnames.

(** The record of a payload: the value of each column, blank where the
    payload has no such field. *)
Definition export_row (m : gmap string Json) : CsvRecord :=
  (λ key, default (JStr EmptyString) (m !! key)) <$> fieldnames.

Definition record_of (post : Json) : CsvRecord :=
  match post with
  | JObj m => export_row m
  | _ => []
  end.

(** A dict with no field beyond the four columns. *)
Definition exportable (post : Json) : bool :=
  match post with
  | JObj m => bool_decide (dom m ⊆ list_to_set (C := gset string) fieldnames)
  | _ => false
  end.

(** The records [writerows] writes before it stops. *)
Fixpoint written (posts : list Json) : list CsvRecord :=
  match posts with
  | [] => []
  | post :: rest =>
      if exportable post then record_of post :: written rest else []
  end.

(** How [writerows] ends. *)
Fixpoint writerows_result (posts : list Json) : result unit :=
  match posts with
  | [] => Return tt
  | post :: rest =>
      if exportable post then writerows_result rest
      else match post with
           | JObj _ => Raise ValueError
           | _ => Raise AttributeError
           end
  end.

(** The number of data records of the export. *)
Definition data_rows (file : option (list CsvRecord)) : nat :=
  match file with
  | Some (_ :: records) => length records
  | _ => 0
  end.

(** ** Sample data *)

Definition post (id user_id : Z) (title body : string) : Json :=
  JObj (list_to_map [("id", JInt id); ("userId", JInt user_id);
                     ("title", JStr title); ("body", JStr body)]).

(** A payload without [title], and one with a field the export has no
    column for. *)
Definition untitled_post : gmap string Json :=
  list_to_map [("id", JInt 7); ("userId", JInt 1); ("body", JStr "text")].

Definition tracked_post : gmap string Json :=
  list_to_map [("id", JInt 8); ("userId", JInt 1); ("title", JStr "eighth");
               ("body", JStr "text"); ("views", JInt 3)].

Definition partial_tracked_post : gmap string Json :=
  list_to_map [("id", JInt 9); ("views", JInt 3)].

Definition answers (code : Z) (content_type : string) (body : exn + Json) : Attempt :=
  {| elapsed := 1;
     outcome := inr {| status := code;
                       headers := {["Content-Type" := content_type]};
                       json := body |} |}.

(** A remote that knows post 1, answers an undecodable body for post 3, a
    JSON [null] for post 4, a page of HTML for post 5, hangs on post 6,
    answers post 7 without its title and post 8 with a field more, and has
    nothing else. *)
Definition sample_session : ClientSession :=
  λ url,
    if String.eqb url "https://example.test/posts/1" then
      answers 200 "application/json; charset=utf-8" (inr (post 1 1 "first" "text"))
    else if String.eqb url "https://example.test/posts/3" then
      answers 200 "application/json" (inl (ClientError "Expecting value"))
    else if String.eqb url "https://example.test/posts/4" then
      answers 200 "application/json" (inr JNull)
    else if String.eqb url "https://example.test/posts/5" then
      answers 200 "text/html" (inr (JStr "page"))
    else if String.eqb url "https://example.test/posts/6" then
      {| elapsed := 6; outcome := inl (ClientError "unreached") |}
    else if String.eqb url "https://example.test/posts/7" then
      answers 200 "application/json" (inr (JObj untitled_post))
    else if String.eqb url "https://example.test/posts/8" then
      answers 200 "application/json" (inr (JObj tracked_post))
    else answers 404 "application/json" (inr (JObj ∅)).

Definition sample_url : string := "https://example.test/posts/".

Definition empty_connection : Connection :=
  {| durable := ∅; working := ∅; unavailable := None |}.

Definition empty_world : World :=
  {| conn := empty_connection; csv_file := None; log := [] |}.

(** A reading of texts as keys, for the samples: a non-empty run of decimal
    digits is read as its value, nothing else is read as a key. *)
Definition digit_of (c : Ascii.ascii) : option Z :=
  let n := Ascii.nat_of_ascii c in
  if (48 <=? n) && (n <=? 57) then Some (Z.of_nat (n - 48)) else None.

Fixpoint digits_value (s : string) (acc : Z) : option Z :=
  match s with
  | EmptyString => Some acc
  | String c s' =>
      match digit_of c with
      | Some d => digits_value s' (10 * acc + d)%Z
      | None => None
      end
  end.

Definition decimal_rowid (s : string) : option Z :=
  match s with
  | EmptyString => None
  | _ => digits_value s 0
  end.

(** A complete payload whose [id] is a JSON [null]. *)
Definition anonymous_post : gmap string Json :=
  list_to_map [("id", JNull); ("userId", JInt 1);
               ("title", JStr "untitled"); ("body", JStr "text")].

Definition first_post : gmap string Json :=
  list_to_map [("id", JInt 1); ("userId", JInt 1);
               ("title", JStr "first"); ("body", JStr "text")].

(** A store that already holds post 7. *)
Definition world_with_post_7 : World :=
  let posts : Table :=
    {[ 7%Z := (SqlInteger 2, SqlText "seventh", SqlText "kept") ]} in
  {| conn := {| durable := posts; working := posts; unavailable := None |};
     csv_file := None;
     log := [] |}.

(** A store that cannot be used. *)
Definition unavailable_world : World :=
  {| conn := {| durable := ∅; working := ∅;
                unavailable := Some "unable to open database file" |};
     csv_file := None;
     log := [] |}.

(** ** Statements that do not hold of the script *)

(** The orchestrator returns one element per identifier. *)
Definition returns_one_outcome_per_identifier : Prop :=
  ∀ session schedule base_url post_ids w posts w',
    schedule ≡ₚ seq 0 (length post_ids) →
    fetch_all_posts session schedule base_url post_ids w = (Return posts, w') →
    length posts = length post_ids.

(** A response with status 200 and a JSON content type is a success. *)
Definition json_typed_200_is_success : Prop :=
  ∀ session base_url post_id w response,
    let a := session (request_url base_url post_id) in
    (elapsed a ≤ 5)%N → outcome a = inr response →
    status response = 200%Z →
    str_contains "application/json"
      (headers_get (headers response) "Content-Type" EmptyString) = true →
    ∃ payload w',
      payload ≠ PyNone ∧
      fetch_post session base_url post_id w = (Return payload, w').

(** The filter keeps the payload of every success. *)
Definition keeps_every_success_payload : Prop :=
  ∀ outcomes,
    valid_results (returned <$> outcomes) = extractSuccesses outcomes.

(** Persisting a complete payload twice leaves one row. *)
Definition persisting_twice_leaves_one_row : Prop :=
  ∀ rowid_of_text m w1 w2,
    complete m →
    save_to_db rowid_of_text [JObj m] empty_world = (Return tt, w1) →
    save_to_db rowid_of_text [JObj m] w1 = (Return tt, w2) →
    size (durable (conn w2)) = 1.


(** After a run the export has as many data records as the run had
    successes. *)
Definition export_rows_equal_successes : Prop :=
  ∀ rowid_of_text session schedule base_url post_ids w posts w0 w',
    fetch_all_posts session schedule base_url post_ids w = (Return posts, w0) →
    main rowid_of_text session schedule base_url post_ids w = (Return tt, w') →
    data_rows (csv_file w') = length posts.

(** After two runs with no payload in common the export holds the header
    and the records of the second run. *)
Definition second_run_replaces_export : Prop :=
  ∀ rowid_of_text base_url session1 schedule1 post_ids1 session2 schedule2 post_ids2
    w posts1 w1 w' posts2 w2 w'',
    fetch_all_posts session1 schedule1 base_url post_ids1 w = (Return posts1, w1) →
    main rowid_of_text session1 schedule1 base_url post_ids1 w = (Return tt, w') →
    fetch_all_posts session2 schedule2 base_url post_ids2 w' = (Return posts2, w2) →
    main rowid_of_text session2 schedule2 base_url post_ids2 w' = (Return tt, w'') →
    (∀ post, post ∈ posts1 → post ∉ posts2) →
    csv_file w'' = Some (header_record :: (record_of <$> posts2)).

(** ** The command line *)

Definition DEFAULT_URL : string := "https://jsonplaceholder.typicode.com/posts/".

Definition test_urls_bad_request : list string :=
  ["99999"; "http://10.255.255.1"; "https://invalid-url.test/";
   "https://invalid-url.com"].

(** What [parser.parse_args()] yields: [--test], [--start], [--end]. *)
Record Namespace := {
  args_test : bool;
  args_start : Z;
  args_end : Z;
}.

(** [range(a, b)] *)
Definition py_range (a b : Z) : list Z :=
  (λ i, (a + Z.of_nat i)%Z) <$> seq 0 (Z.to_nat (b - a)).

Definition script_base_url (args : Namespace) : string :=
  if args_test args then EmptyString else DEFAULT_URL.

Definition script_post_ids (args : Namespace) : list Identifier :=
  if args_test args then IdStr <$> test_urls_bad_request
  else IdInt <$> py_range (args_start args) (args_end args + 1).

(** The body of [if __name__ == "__main__"], after the arguments are parsed. *)
Definition script (rowid_of_text : string → option Z) (args : Namespace)
    (session : ClientSession) (schedule : list nat) : M unit :=
  run rowid_of_text session schedule (script_base_url args) (script_post_ids args).

(** ** More shapes *)

Definition is_failure (o : FetchOutcome) : bool :=
  match o with
  | Failure _ => true
  | Success _ => false
  end.

(** A true value that is a number or a boolean. *)
Definition truthy_scalar (post : Json) : bool :=
  match post with
  | JBool b => b
  | JInt z => negb (z =? 0)%Z
  | _ => false
  end.

Section Rows.

Variable rowid_of_text : string → option Z.

(** The key and the row a tuple is stored as, when its values can be bound
    and its [id] names a key. *)
Definition resolved (params : Json * Json * Json * Json) : option (Z * Row) :=
  let '(id, user_id, title, body) := params in
  match explicit_rowid rowid_of_text id,
        adapted id, adapted user_id, adapted title, adapted body with
  | Some rowid, inr _, inr user_id, inr title, inr body =>
      Some (rowid, (user_id, title, body))
  | _, _, _, _, _ => None
  end.

End Rows.

(** A table after the rows are written under their keys, in order. *)
Definition write_rows (rows : list (Z * Row)) (t : Table) : Table :=
  foldl (λ t row, <[row.1 := row.2]> t) t rows.

(** * Properties *)

Lemma add_logs_nil w : add_logs [] w = w.
Proof. destruct w; unfold add_logs; simpl. by rewrite app_nil_r. Qed.

Lemma add_logs_app r1 r2 w : add_logs r2 (add_logs r1 w) = add_logs (r1 ++ r2) w.
Proof. unfold add_logs; simpl. by rewrite app_assoc. Qed.

Lemma add_log_add_logs r w : add_log r w = add_logs [r] w.
Proof. done. Qed.

(** ** The fetcher *)

Lemma caught_handler url e w :
  (match e with
   | TimeoutError => logger (ErrTimeout url) ;; ret PyNone
   | _ => logger (ErrException url e) ;; ret PyNone
   end) w = (Return (returned (caught e)), add_logs (logged url (caught e)) w).
Proof. by destruct e. Qed.

Lemma fetch_post_outcome session base_url post_id w :
  fetch_post session base_url post_id w =
    (Return (returned (outcome_of session base_url post_id)),
     add_logs (logged (request_url base_url post_id)
                 (outcome_of session base_url post_id)) w).
Proof.
  unfold fetch_post, outcome_of, classify, request_url, try_except.
  set (url := base_url +:+ format_id post_id).
  unfold mbind, M_bind, bind, session_get.
  destruct (5 <? elapsed (session url))%N; [done|].
  destruct (outcome (session url)) as [e|response]; simpl.
  { apply caught_handler. }
  destruct (status response =? 200)%Z; [|done].
  destruct (str_contains _ _); [|done].
  unfold response_json, lift.
  destruct (json response) as [e|payload]; simpl.
  - apply caught_handler.
  - by rewrite add_logs_nil.
Qed.

(** ** The orchestrator *)

Section Gather.

Context (tasks : list (M Json)).
Context (value : nat → Json) (records : nat → list log_record).
Hypothesis tasks_run : ∀ i task, tasks !! i = Some task →
  ∀ w, task w = (Return (value i), add_logs (records i) w).

Lemma run_tasks_fills schedule : ∀ slots w,
  NoDup schedule →
  (∀ i, i ∈ schedule → is_Some (tasks !! i) ∧ slots !! i = Some None) →
  ∃ slots',
    run_tasks tasks schedule slots w
      = (Return slots', add_logs (schedule ≫= records) w) ∧
    length slots' = length slots ∧
    ∀ j, slots' !! j
         = if bool_decide (j ∈ schedule) then Some (Some (value j)) else slots !! j.
Proof using tasks_run.
  induction schedule as [|i schedule IH]; intros slots w Hnodup Hfree.
  - exists slots. simpl. rewrite add_logs_nil. done.
  - apply NoDup_cons in Hnodup as [Hi Hnodup].
    destruct (Hfree i) as [[task Htask] Hslot]; [left|].
    simpl. rewrite Htask, Hslot.
    unfold mbind at 1, M_bind, bind. rewrite (tasks_run i task Htask).
    destruct (IH (<[i:=Some (value i)]> slots) (add_logs (records i) w) Hnodup)
      as (slots' & Hrun & Hlen & Hlookup).
    { intros j Hj. destruct (Hfree j) as [? ?]; [by right|].
      split; [done|]. rewrite list_lookup_insert_ne; [done|].
      intros ->. done. }
    exists slots'. rewrite Hrun, add_logs_app.
    split; [done|]. split; [by rewrite Hlen, length_insert|].
    intros j. rewrite Hlookup.
    destruct (decide (j = i)) as [->|Hne].
    + rewrite (bool_decide_eq_false_2 _ Hi), bool_decide_eq_true_2 by left.
      apply list_lookup_insert_eq. by apply lookup_lt_Some in Hslot.
    + rewrite list_lookup_insert_ne by done.
      destruct (decide (j ∈ schedule)) as [Hin|Hnin].
      * by rewrite !bool_decide_eq_true_2 by (done || by right).
      * rewrite !bool_decide_eq_false_2; [done| |done].
        intros [?|?]%elem_of_cons; done.
Qed.

Lemma gather_in_order schedule w :
  schedule ≡ₚ seq 0 (length tasks) →
  gather schedule tasks w
    = (Return (value <$> seq 0 (length tasks)), add_logs (schedule ≫= records) w).
Proof using tasks_run.
  intros Hperm. unfold gather.
  destruct (run_tasks_fills schedule (replicate (length tasks) None) w)
    as (slots & Hrun & Hlen & Hlookup).
  { rewrite Hperm. apply NoDup_seq. }
  { intros i Hi. rewrite Hperm in Hi. apply elem_of_seq in Hi as [_ Hi].
    split; [by apply lookup_lt_is_Some|].
    by apply lookup_replicate_2. }
  unfold mbind at 1, M_bind, bind. rewrite Hrun.
  rewrite length_replicate in Hlen.
  assert (slots = Some <$> (value <$> seq 0 (length tasks))) as ->.
  { apply list_eq. intros j. rewrite Hlookup, !list_lookup_fmap.
    destruct (decide (j < length tasks)) as [Hlt|Hge].
    - rewrite bool_decide_eq_true_2.
      + by rewrite lookup_seq_lt.
      + rewrite Hperm. apply elem_of_seq. lia.
    - rewrite bool_decide_eq_false_2.
      + rewrite lookup_seq_ge by lia. simpl.
        apply lookup_replicate_None. lia.
      + rewrite Hperm. rewrite elem_of_seq. lia. }
  assert (mapM id (Some <$> (value <$> seq 0 (length tasks)))
          = Some (value <$> seq 0 (length tasks))) as ->; [|done].
  apply mapM_Some. apply Forall2_fmap_l. by apply Forall_Forall2_diag, Forall_forall.
Qed.

End Gather.

Section Orchestrator.

Context (session : ClientSession) (base_url : string) (post_ids : list Identifier).

Let results : list Json := returned ∘ outcome_of session base_url <$> post_ids.

Lemma gather_fetches schedule w :
  schedule ≡ₚ seq 0 (length post_ids) →
  gather schedule (map (fetch_post session base_url) post_ids) w
    = (Return results, add_logs (fetch_log session base_url post_ids schedule) w).
Proof.
  intros Hperm.
  set (value := λ i, match post_ids !! i with
                     | Some post_id => returned (outcome_of session base_url post_id)
                     | None => PyNone
                     end).
  rewrite (gather_in_order _ value
             (λ i, match post_ids !! i with
                   | Some post_id =>
                       logged (request_url base_url post_id)
                         (outcome_of session base_url post_id)
                   | None => []
                   end)).
  - f_equal. f_equal. rewrite length_map. apply list_eq. intros i.
    unfold results. rewrite !list_lookup_fmap.
    destruct (post_ids !! i) as [post_id|] eqn:Hi.
    + rewrite lookup_seq_lt by (by apply lookup_lt_Some in Hi).
      simpl. unfold value. by rewrite Hi.
    + rewrite lookup_seq_ge; [done|]. by apply lookup_ge_None in Hi.
  - intros i task Htask w0.
    change (map ?f ?l) with (f <$> l) in Htask.
    rewrite list_lookup_fmap in Htask. unfold value.
    destruct (post_ids !! i) as [post_id|]; simplify_eq/=.
    apply fetch_post_outcome.
  - by rewrite length_map.
Qed.

Lemma fetch_all_posts_run schedule w :
  schedule ≡ₚ seq 0 (length post_ids) →
  fetch_all_posts session schedule base_url post_ids w
    = (Return (valid_results results),
       add_logs (fetch_log session base_url post_ids schedule ++
                 [InfoFetchedCount (length post_ids) (length (valid_results results))
                    (length post_ids - length (valid_results results))]) w).
Proof.
  intros Hperm. unfold fetch_all_posts.
  unfold mbind at 1, M_bind, bind. rewrite gather_fetches by done.
  unfold mbind, M_bind, bind, logger, modify, ret.
  by rewrite add_log_add_logs, add_logs_app.
Qed.

End Orchestrator.

(** ** Properties of the fetcher *)

Lemma classify_classified a : classified a (classify a).
Proof.
  unfold classify.
  destruct (5 <? elapsed a)%N eqn:Ht.
  { apply classified_timeout. by apply N.ltb_lt. }
  apply N.ltb_ge in Ht.
  destruct (outcome a) as [e|response] eqn:Ho.
  { by apply classified_fault. }
  destruct (status response =? 200)%Z eqn:Hs.
  2:{ eapply classified_status; [done..|]. by apply Z.eqb_neq. }
  apply Z.eqb_eq in Hs.
  destruct (str_contains _ _) eqn:Hc.
  2:{ by eapply classified_content_type. }
  destruct (json response) as [e|payload] eqn:Hj.
  - by eapply classified_undecoded.
  - by eapply classified_payload.
Qed.

Lemma classified_classify a o : classified a o → o = classify a.
Proof.
  unfold classify.
  destruct 1 as [Ht|e Ht Ho|r Ht Ho Hs|r ct Ht Ho Hs -> Hc|r p Ht Ho Hs Hc Hj
                 |r e Ht Ho Hs Hc Hj].
  - apply N.ltb_lt in Ht. by rewrite Ht.
  - apply N.ltb_ge in Ht. by rewrite Ht, Ho.
  - apply N.ltb_ge in Ht. apply Z.eqb_neq in Hs. by rewrite Ht, Ho, Hs.
  - apply N.ltb_ge in Ht. apply Z.eqb_eq in Hs. by rewrite Ht, Ho, Hs, Hc.
  - apply N.ltb_ge in Ht. apply Z.eqb_eq in Hs. by rewrite Ht, Ho, Hs, Hc, Hj.
  - apply N.ltb_ge in Ht. apply Z.eqb_eq in Hs. by rewrite Ht, Ho, Hs, Hc, Hj.
Qed.

(** C5, as the script has it: every request falls under one of the cases of
    [classified], and in each case [fetch_post] returns (it never raises,
    whatever the request does): the decoded payload when the status is 200,
    the content type contains application/json and the body decodes; [None]
    in every other case, with one error record naming the case in the log,
    a body that fails to decode being reported like a transport fault. *)
Theorem fetch_post_classifies session base_url post_id w :
  let url := request_url base_url post_id in
  (∃ o, classified (session url) o) ∧
  (∀ o, classified (session url) o →
        fetch_post session base_url post_id w
          = (Return (returned o), add_logs (logged url o) w)).
Proof.
  split.
  - exists (outcome_of session base_url post_id). apply classify_classified.
  - intros o ->%classified_classify. apply fetch_post_outcome.
Qed.

Lemma fetch_post_classifies_witness :
  fetch_post sample_session sample_url (IdInt 2) empty_world
    = (Return PyNone,
       add_logs [ErrResponseStatus "https://example.test/posts/2" 404] empty_world).
Proof.
  apply (proj2 (fetch_post_classifies sample_session sample_url (IdInt 2) empty_world)
           (Failure (HttpStatus 404))).
  by apply (classified_status _ {| status := 404;
                                   headers := {["Content-Type" := "application/json"]};
                                   json := inr (JObj ∅) |}).
Defined.

(** C5 as stated fails: a body that does not decode, under status 200 and a
    JSON content type, makes [fetch_post] return [None]. *)
Lemma json_typed_200_is_not_always_success : ¬ json_typed_200_is_success.
Proof.
  intros H.
  destruct (H sample_session sample_url (IdInt 3) empty_world
              {| status := 200;
                 headers := {["Content-Type" := "application/json"]};
                 json := inl (ClientError "Expecting value") |})
    as (payload & w' & Hpayload & Hrun); [done..|].
  vm_compute in Hrun. congruence.
Qed.

(** ** Properties of the orchestrator *)

(** C1, as the script has it: whatever the order in which the fetches
    complete, the sequence [gather] yields inside [fetch_all_posts] has one
    element per identifier, the i-th being what the fetch built from the
    i-th identifier returns; [fetch_all_posts] itself returns the elements
    of that sequence other than [None], in the same order, and touches
    neither sink. *)
Theorem gather_keeps_identifier_order session schedule base_url post_ids w :
  schedule ≡ₚ seq 0 (length post_ids) →
  ∃ results w1 w2,
    gather schedule (map (fetch_post session base_url) post_ids) w
      = (Return results, w1) ∧
    length results = length post_ids ∧
    (∀ i post_id, post_ids !! i = Some post_id →
       ∃ r, results !! i = Some r ∧
            ∀ w0, (fetch_post session base_url post_id w0).1 = Return r) ∧
    fetch_all_posts session schedule base_url post_ids w
      = (Return (valid_results results), w2) ∧
    length (valid_results results) ≤ length post_ids ∧
    conn w2 = conn w ∧ csv_file w2 = csv_file w.
Proof.
  intros Hperm. eexists _, _, _.
  split; [by apply gather_fetches|].
  split; [by rewrite length_fmap|].
  split.
  { intros i post_id Hi. eexists. split.
    - rewrite list_lookup_fmap, Hi. done.
    - intros w0. by rewrite fetch_post_outcome. }
  split; [by apply fetch_all_posts_run|].
  split; [|done].
  unfold valid_results. rewrite <- (length_fmap (returned ∘ outcome_of session base_url) post_ids).
  apply List.filter_length_le.
Qed.

Lemma gather_keeps_identifier_order_witness :
  [1; 0] ≡ₚ seq 0 (length [IdInt 1; IdInt 2]) ∧
  ∃ results w1 w2,
    gather [1; 0] (map (fetch_post sample_session sample_url) [IdInt 1; IdInt 2])
      empty_world = (Return results, w1) ∧
    length results = length [IdInt 1; IdInt 2] ∧
    (∀ i post_id, [IdInt 1; IdInt 2] !! i = Some post_id →
       ∃ r, results !! i = Some r ∧
            ∀ w0, (fetch_post sample_session sample_url post_id w0).1 = Return r) ∧
    fetch_all_posts sample_session [1; 0] sample_url [IdInt 1; IdInt 2] empty_world
      = (Return (valid_results results), w2) ∧
    length (valid_results results) ≤ length [IdInt 1; IdInt 2] ∧
    conn w2 = conn empty_world ∧ csv_file w2 = csv_file empty_world.
Proof.
  assert ([1; 0] ≡ₚ seq 0 (length [IdInt 1; IdInt 2])) as Hperm
    by apply perm_swap.
  split; [exact Hperm|].
  exact (gather_keeps_identifier_order sample_session [1; 0] sample_url
           [IdInt 1; IdInt 2] empty_world Hperm).
Defined.

(** C1 as stated fails: of the identifiers 1 and 2 the remote knows only the
    first, and [fetch_all_posts] returns a single element. *)
Lemma returns_fewer_than_identifiers : ¬ returns_one_outcome_per_identifier.
Proof.
  intros H.
  assert ([0; 1] ≡ₚ seq 0 (length [IdInt 1; IdInt 2])) as Hperm by done.
  specialize (H sample_session [0; 1] sample_url [IdInt 1; IdInt 2] empty_world
                _ _ Hperm (fetch_all_posts_run _ _ _ _ _ Hperm)).
  vm_compute in H. discriminate H.
Qed.

(** C8, as the script has it: on the values the script uses for outcomes
    (the payload itself for a success, [None] for a failure), the
    comprehension that builds [valid_results] yields, in their order, the
    payloads of the successes other than [None], and nothing else; it is a
    function of the list alone.  Where no success has the payload [None],
    these are the payloads of all the successes. *)
Theorem valid_results_extracts_successes outcomes :
  valid_results (returned <$> outcomes)
    = List.filter is_not_None (extractSuccesses outcomes) ∧
  valid_results (returned <$> outcomes) `sublist_of` (returned <$> outcomes) ∧
  (Forall representable outcomes →
   valid_results (returned <$> outcomes) = extractSuccesses outcomes).
Proof.
  unfold valid_results, extractSuccesses.
  induction outcomes as [|o outcomes (IH1 & IH2 & IH3)]; [done|].
  destruct o as [payload|reason]; csimpl.
  - destruct (is_not_None payload) eqn:Hpayload.
    + split; [by rewrite IH1|]. split; [by apply sublist_skip|].
      intros [_ Hrest]%Forall_cons. by rewrite IH3.
    + split; [done|]. split; [by apply sublist_cons|].
      intros [Hrep _]%Forall_cons. by destruct payload.
  - split; [done|]. split; [by apply sublist_cons|].
    intros [_ Hrest]%Forall_cons. by apply IH3.
Qed.

Lemma valid_results_extracts_successes_witness :
  Forall representable
    [Success (post 1 1 "first" "text"); Failure (HttpStatus 404)] ∧
  valid_results
    (returned <$> [Success (post 1 1 "first" "text"); Failure (HttpStatus 404)])
    = [post 1 1 "first" "text"].
Proof.
  assert (Forall representable
            [Success (post 1 1 "first" "text"); Failure (HttpStatus 404)]) as H.
  { repeat constructor. done. }
  split; [exact H|].
  exact (proj2 (proj2 (valid_results_extracts_successes _)) H).
Defined.

(** C8 as stated fails: the remote answers post 4 with status 200, a JSON
    content type and the body [null]; the outcome is a success whose
    payload is [None], and the filter drops it. *)
Lemma null_success_is_dropped : ¬ keeps_every_success_payload.
Proof.
  intros H.
  specialize (H [outcome_of sample_session sample_url (IdInt 4)]).
  vm_compute in H. discriminate H.
Qed.

(** ** Steps that leave the program state alone *)

Lemma lift_run {A} (r : exn + A) w :
  lift r w = (match r with inl e => Raise e | inr v => Return v end, w).
Proof. by destruct r. Qed.

Lemma bind_run {A B} (c : M A) (k : A → M B) w :
  (c ≫= k) w = match c w with
                | (Return v, w') => k v w'
                | (Raise e, w') => (Raise e, w')
                | (Blocked, w') => (Blocked, w')
                end.
Proof. done. Qed.

Lemma all_keys_exist_pure keys post :
  ∃ r, r ≠ Blocked ∧ pure (all_keys_exist keys post) r.
Proof.
  induction keys as [|key keys (r & Hr & IH)]; simpl.
  { by exists (Return true). }
  unfold py_in. destruct (contains key post) as [e|[|]].
  - exists (Raise e). split; [done|]. intros w. by rewrite bind_run, lift_run.
  - exists r. split; [done|]. intros w. rewrite bind_run, lift_run. apply IH.
  - exists (Return false). split; [done|]. intros w. by rewrite bind_run, lift_run.
Qed.

Lemma all_keys_exist_accepted post w ok w' :
  all_keys_exist required_keys post w = (Return ok, w') →
  w' = w ∧
  ok = forallb (λ key, match contains key post with inr true => true | _ => false end)
         required_keys.
Proof.
  generalize required_keys as keys.
  induction keys as [|key keys IH]; simpl.
  { unfold ret. by intros [= <- <-]. }
  rewrite bind_run. unfold py_in. rewrite lift_run.
  destruct (contains key post) as [e|[|]]; simpl; [done| |].
  - apply IH.
  - unfold ret. by intros [= <- <-].
Qed.

Lemma all_keys_exist_dict m w :
  all_keys_exist required_keys (JObj m) w = (Return (bool_decide (complete m)), w).
Proof.
  assert (∀ keys,
    all_keys_exist keys (JObj m) w
    = (Return (bool_decide (Forall (λ key, is_Some (m !! key)) keys)), w)) as H.
  { induction keys as [|key keys IH]; simpl.
    { done. }
    rewrite bind_run. unfold py_in. rewrite lift_run. cbn [contains].
    destruct (decide (is_Some (m !! key))) as [Hk|Hk].
    - rewrite (bool_decide_eq_true_2 _ Hk). simpl. rewrite IH.
      do 2 f_equal. apply bool_decide_ext. rewrite Forall_cons. tauto.
    - rewrite (bool_decide_eq_false_2 _ Hk). simpl. unfold ret.
      rewrite bool_decide_eq_false_2; [done|].
      by intros [? _]%Forall_cons. }
  rewrite H. do 2 f_equal. apply bool_decide_ext.
  unfold complete. by rewrite Forall_forall.
Qed.

Lemma accepted_dict m : accepted (JObj m) = true → complete m.
Proof.
  unfold accepted. intros [_ H]%andb_true_iff key Hkey.
  rewrite forallb_forall in H. specialize (H key).
  rewrite <- list_elem_of_In in H. specialize (H Hkey). simpl in H.
  by case_bool_decide.
Qed.

Lemma collect_valid_posts_pure posts :
  ∀ valid_posts,
    ∃ r, r ≠ Blocked ∧ pure (collect_valid_posts posts valid_posts) r.
Proof.
  induction posts as [|post posts IH]; intros valid_posts;
    cbn [collect_valid_posts].
  { by exists (Return valid_posts). }
  destruct (truthy post); [|apply IH].
  destruct (all_keys_exist_pure required_keys post) as ([[|]|e|] & Hnb & Hr).
  - destruct (IH (valid_posts ++ [post])) as (r & ? & Hr').
    exists r. split; [done|]. intros w. by rewrite bind_run, Hr.
  - destruct (IH valid_posts) as (r & ? & Hr').
    exists r. split; [done|]. intros w. by rewrite bind_run, Hr.
  - exists (Raise e). split; [done|]. intros w. by rewrite bind_run, Hr.
  - done.
Qed.

Lemma collect_valid_posts_Return posts : ∀ valid_posts w valid w',
  collect_valid_posts posts valid_posts w = (Return valid, w') →
  w' = w ∧ valid = valid_posts ++ List.filter accepted posts.
Proof.
  induction posts as [|post posts IH]; intros valid_posts w valid w';
    cbn [collect_valid_posts List.filter].
  { unfold ret. intros [= <- <-]. by rewrite app_nil_r. }
  unfold accepted at 1. destruct (truthy post); cbn [andb]; [|apply IH].
  rewrite bind_run.
  destruct (all_keys_exist required_keys post w) as [[ok|e|] w1] eqn:Hkeys; [|done..].
  apply all_keys_exist_accepted in Hkeys as [-> <-].
  destruct ok.
  - intros [-> ->]%IH. by rewrite <- app_assoc.
  - apply IH.
Qed.

(** An incomplete payload leaves [valid_posts] as it is. *)
Lemma collect_valid_posts_skip before m after : ∀ valid_posts w,
  ¬ complete m →
  collect_valid_posts (before ++ JObj m :: after) valid_posts w
    = collect_valid_posts (before ++ after) valid_posts w.
Proof.
  intros valid_posts w Hm. revert valid_posts.
  induction before as [|post before IH]; intros valid_posts;
    cbn [app collect_valid_posts].
  - destruct (truthy (JObj m)); [|done].
    rewrite bind_run, all_keys_exist_dict.
    by rewrite (bool_decide_eq_false_2 _ Hm).
  - destruct (truthy post); [|apply IH].
    rewrite !bind_run.
    destruct (all_keys_exist required_keys post w) as [[[|]|e|] w1] eqn:Hkeys;
      [| |done..].
    + destruct (all_keys_exist_pure required_keys post) as (r & _ & Hr).
      rewrite Hr in Hkeys. injection Hkeys as _ <-. apply IH.
    + destruct (all_keys_exist_pure required_keys post) as (r & _ & Hr).
      rewrite Hr in Hkeys. injection Hkeys as _ <-. apply IH.
Qed.

(** ** The tuples bound to the statement *)

Lemma post_tuple_run post w :
  (∃ e, post_tuple post w = (Raise e, w)) ∨
  (∃ params, post_tuple post w = (Return params, w) ∧ is_tuple_of post params).
Proof.
  unfold post_tuple, py_getitem.
  destruct post as [| | | | |m]; try (left; exists TypeError; done).
  rewrite bind_run, lift_run. cbn [getitem].
  destruct (m !! "id") as [id|] eqn:Hid; [|left; by exists KeyError].
  rewrite bind_run, lift_run. cbn [getitem].
  destruct (m !! "userId") as [user_id|] eqn:Hu; [|left; by exists KeyError].
  rewrite bind_run, lift_run. cbn [getitem].
  destruct (m !! "title") as [title|] eqn:Ht; [|left; by exists KeyError].
  rewrite bind_run, lift_run. cbn [getitem].
  destruct (m !! "body") as [body|] eqn:Hb; [|left; by exists KeyError].
  right. exists (id, user_id, title, body). split; [done|].
  by exists m, id, user_id, title, body.
Qed.

Lemma mapM_post_tuple_run posts w :
  (∃ e, mapM post_tuple posts w = (Raise e, w)) ∨
  (∃ seq_of_parameters,
     mapM post_tuple posts w = (Return seq_of_parameters, w) ∧
     Forall2 is_tuple_of posts seq_of_parameters).
Proof.
  induction posts as [|post posts IH]; cbn [mapM].
  { right. exists []. by split. }
  rewrite bind_run.
  destruct (post_tuple_run post w) as [[e ->]|(params & -> & Hparams)].
  { left. by exists e. }
  rewrite bind_run.
  destruct IH as [[e ->]|(rest & -> & Hrest)].
  { left. by exists e. }
  right. exists (params :: rest). split; [done|]. by constructor.
Qed.

(** ** Keys *)

Lemma largest_rowid_bound (t : Table) k row :
  t !! k = Some row → ∃ l, largest_rowid t = Some l ∧ (k ≤ l)%Z.
Proof.
  unfold largest_rowid. revert k row.
  apply (map_fold_weak_ind
           (λ acc (t : Table),
              ∀ k row, t !! k = Some row → ∃ l, acc = Some l ∧ (k ≤ l)%Z)).
  { intros k row. by rewrite lookup_empty. }
  intros i x m acc _ IH k row Hk.
  destruct (decide (i = k)) as [->|Hne].
  - destruct acc as [a|]; eexists; (split; [done|]); lia.
  - rewrite lookup_insert_ne in Hk by done.
    destruct (IH k row Hk) as (l & -> & Hl).
    eexists; (split; [done|]); lia.
Qed.

(** The key given to a row inserted with a NULL [id] is not in use. *)
Lemma new_rowid_fresh (t : Table) k : new_rowid t = Some k → t !! k = None.
Proof.
  unfold new_rowid. intros Hnew.
  destruct (t !! k) as [row|] eqn:Hk; [|done].
  destruct (largest_rowid_bound t k row Hk) as (l & Hl & Hle).
  rewrite Hl in Hnew. destruct (l <? 2 ^ 63 - 1)%Z; [|done].
  injection Hnew as <-. lia.
Qed.

(** ** The batch write *)

Section Storage.

Variable rowid_of_text : string → option Z.


Lemma bind_parameters_run id user_id title body w :
  bind_parameters (id, user_id, title, body) w
  = match adapted id, adapted user_id, adapted title, adapted body with
    | inr id, inr user_id, inr title, inr body =>
        (Return (id, user_id, title, body), w)
    | inl e, _, _, _ | inr _, inl e, _, _ | inr _, inr _, inl e, _
    | inr _, inr _, inr _, inl e => (Raise e, w)
    end.
Proof.
  unfold bind_parameters, adapt.
  rewrite bind_run, lift_run. destruct (adapted id); [done|].
  rewrite bind_run, lift_run. destruct (adapted user_id); [done|].
  rewrite bind_run, lift_run. destruct (adapted title); [done|].
  rewrite bind_run, lift_run. by destruct (adapted body).
Qed.

Lemma insert_or_replace_run id user_id title body w :
  insert_or_replace rowid_of_text (id, user_id, title, body) w
  = match unavailable (conn w) with
    | Some detail => (Raise (Sqlite3Error (OperationalError detail)), w)
    | None =>
        match resolve_rowid rowid_of_text (working (conn w)) id with
        | inl e => (Raise e, w)
        | inr rowid => (Return tt, with_row rowid (user_id, title, body) w)
        end
    end.
Proof.
  unfold insert_or_replace. rewrite bind_run. unfold get_world.
  destruct (unavailable (conn w)) eqn:Hu; [done|].
  rewrite bind_run, lift_run.
  destruct (resolve_rowid rowid_of_text _ _); [done|].
  unfold modify, with_row. by rewrite Hu.
Qed.

(** A row is written under the key its [id] names, or under a free one. *)
Lemma resolve_rowid_explicit t id sql rowid :
  adapted id = inr sql →
  resolve_rowid rowid_of_text t sql = inr rowid →
  explicit_rowid rowid_of_text id = Some rowid ∨ t !! rowid = None.
Proof.
  destruct id as [|b|z|s|l|m]; simpl; try done.
  - intros [= <-]. simpl. destruct (new_rowid t) as [k|] eqn:Hnew; [|done].
    intros [= <-]. right. by apply new_rowid_fresh.
  - intros [= <-]. simpl. intros [= <-]. by left.
  - destruct (_ && _); [|done]. intros [= <-]. simpl. intros [= <-]. by left.
  - intros [= <-]. simpl. destruct (rowid_of_text s); [|done].
    intros [= <-]. by left.
Qed.

Lemma resolve_rowid_not_null t v sql rowid :
  v ≠ JNull →
  adapted v = inr sql →
  resolve_rowid rowid_of_text t sql = inr rowid →
  explicit_rowid rowid_of_text v = Some rowid.
Proof.
  destruct v as [|b|z|s|l|m]; simpl; try done.
  - intros _ [= <-]. simpl. by intros [= <-].
  - intros _. destruct (_ && _); [|done]. intros [= <-]. simpl. by intros [= <-].
  - intros _ [= <-]. simpl. destruct (rowid_of_text s); [|done].
    by intros [= <-].
Qed.

Lemma resolve_rowid_resolved t v sql rowid :
  adapted v = inr sql →
  explicit_rowid rowid_of_text v = Some rowid →
  resolve_rowid rowid_of_text t sql = inr rowid.
Proof.
  destruct v as [|b|z|s|l|m]; simpl; try done.
  - intros [= <-] [= <-]. done.
  - destruct (_ && _); [|done]. intros [= <-] [= <-]. done.
  - intros [= <-] Hs. simpl. by rewrite Hs.
Qed.

(** What one tuple of the batch does. *)
Lemma execute_one_run id user_id title body w r w' :
  (values ← bind_parameters (id, user_id, title, body);
   insert_or_replace rowid_of_text values) w = (r, w') →
  (∃ e, r = Raise e ∧ w' = w) ∨
  (∃ sql_id sql_user_id sql_title sql_body rowid,
     r = Return tt ∧
     adapted id = inr sql_id ∧ adapted user_id = inr sql_user_id ∧
     adapted title = inr sql_title ∧ adapted body = inr sql_body ∧
     unavailable (conn w) = None ∧
     resolve_rowid rowid_of_text (working (conn w)) sql_id = inr rowid ∧
     w' = with_row rowid (sql_user_id, sql_title, sql_body) w).
Proof.
  rewrite bind_run, bind_parameters_run.
  destruct (adapted id) as [e|sql_id];
    [intros [= <- <-]; left; by exists e|].
  destruct (adapted user_id) as [e|sql_user_id];
    [intros [= <- <-]; left; by exists e|].
  destruct (adapted title) as [e|sql_title];
    [intros [= <- <-]; left; by exists e|].
  destruct (adapted body) as [e|sql_body];
    [intros [= <- <-]; left; by exists e|].
  rewrite insert_or_replace_run.
  destruct (unavailable (conn w)) as [detail|] eqn:Hu;
    [intros [= <- <-]; left; by eexists|].
  destruct (resolve_rowid rowid_of_text _ _) as [e|rowid] eqn:Hrowid;
    [intros [= <- <-]; left; by exists e|].
  intros [= <- <-]. right.
  by exists sql_id, sql_user_id, sql_title, sql_body, rowid.
Qed.

Lemma cursor_executemany_cons params rest w :
  cursor_executemany rowid_of_text (params :: rest) w
  = match (values ← bind_parameters params;
           insert_or_replace rowid_of_text values) w with
    | (Return _, w') => cursor_executemany rowid_of_text rest w'
    | (Raise e, w') => (Raise e, w')
    | (Blocked, w') => (Blocked, w')
    end.
Proof.
  cbn [cursor_executemany]. rewrite !bind_run.
  destruct (bind_parameters params w) as [[values|e|] w1]; [|done..].
  rewrite bind_run.
  by destruct (insert_or_replace rowid_of_text values w1) as [[[]|e|] w2].
Qed.

Lemma cursor_executemany_app l1 l2 : ∀ w,
  cursor_executemany rowid_of_text (l1 ++ l2) w
  = match cursor_executemany rowid_of_text l1 w with
    | (Return _, w') => cursor_executemany rowid_of_text l2 w'
    | (Raise e, w') => (Raise e, w')
    | (Blocked, w') => (Blocked, w')
    end.
Proof.
  induction l1 as [|params l1 IH]; intros w; [done|].
  cbn [app]. rewrite !cursor_executemany_cons.
  destruct ((values ← bind_parameters params;
             insert_or_replace rowid_of_text values) w)
    as [[[]|e|] w1]; [apply IH|done..].
Qed.

(** The batch write never blocks, touches only the open transaction, and
    leaves every row whose key no tuple names where it is. *)
Lemma cursor_executemany_frame seq_of_parameters : ∀ w r w',
  cursor_executemany rowid_of_text seq_of_parameters w = (r, w') →
  r ≠ Blocked ∧
  durable (conn w') = durable (conn w) ∧
  unavailable (conn w') = unavailable (conn w) ∧
  csv_file w' = csv_file w ∧ log w' = log w ∧
  ∀ k row,
    working (conn w) !! k = Some row →
    (∀ id user_id title body,
       (id, user_id, title, body) ∈ seq_of_parameters →
       explicit_rowid rowid_of_text id ≠ Some k) →
    working (conn w') !! k = Some row.
Proof.
  induction seq_of_parameters as [|[[[id user_id] title] body] rest IH];
    intros w r w'.
  { cbn. unfold ret. intros [= <- <-]. by repeat split. }
  rewrite cursor_executemany_cons.
  destruct ((values ← bind_parameters (id, user_id, title, body);
             insert_or_replace rowid_of_text values) w) as [r1 w1] eqn:Hone.
  apply execute_one_run in Hone
    as [(e & -> & ->)|(sid & su & st & sb & rowid & -> & Hid & _ & _ & _ & _ & Hrowid & ->)].
  { intros [= <- <-]. by repeat split. }
  intros (Hr & Hd & Hu & Hc & Hl & Hframe)%IH.
  repeat split; [done..|].
  intros k row Hk Hkeys. apply Hframe.
  - simpl. rewrite lookup_insert_ne; [done|]. intros ->.
    destruct (resolve_rowid_explicit _ _ _ _ Hid Hrowid) as [Hex|Hfree].
    + by apply (Hkeys id user_id title body); [left|].
    + congruence.
  - intros id' user_id' title' body' Hin.
    apply (Hkeys id' user_id' title' body'). by right.
Qed.

(** The three stages of [save_to_db]: it stops before the write with the
    state untouched, or it is the batch write followed by the commit. *)
Lemma save_to_db_run posts w :
  (∃ e, save_to_db rowid_of_text posts w = (Raise e, w)) ∨
  (∃ seq_of_parameters,
     collect_valid_posts posts [] w = (Return (List.filter accepted posts), w) ∧
     mapM post_tuple (List.filter accepted posts) w = (Return seq_of_parameters, w) ∧
     Forall2 is_tuple_of (List.filter accepted posts) seq_of_parameters ∧
     save_to_db rowid_of_text posts w
     = match cursor_executemany rowid_of_text seq_of_parameters w with
       | (Return _, w1) => (Return tt, add_log InfoSavedToDatabase (committed w1))
       | (Raise e, w1) => (Raise e, w1)
       | (Blocked, w1) => (Blocked, w1)
       end).
Proof.
  unfold save_to_db. rewrite bind_run.
  destruct (collect_valid_posts_pure posts []) as ([valid|e|] & Hnb & Hr);
    [| |done].
  2:{ left. exists e. by rewrite Hr. }
  destruct (collect_valid_posts_Return _ _ _ _ _ (Hr w)) as [_ ->].
  rewrite Hr, app_nil_l, bind_run.
  destruct (mapM_post_tuple_run (List.filter accepted posts) w)
    as [[e ->]|(seq_of_parameters & -> & Htuples)].
  { left. by exists e. }
  right. exists seq_of_parameters. do 3 (split; [done|]).
  rewrite bind_run.
  destruct (cursor_executemany rowid_of_text seq_of_parameters w)
    as [[[]|e|] w1]; done.
Qed.

End Storage.

(** ** Properties of the relational sink *)

Lemma complete_accepted m : complete m → accepted (JObj m) = true.
Proof.
  intros Hm. unfold accepted. apply andb_true_iff. split.
  - simpl. apply negb_true_iff, bool_decide_eq_false_2. intros ->.
    destruct (Hm "id") as [v Hv]; [by left|]. by rewrite lookup_empty in Hv.
  - apply forallb_forall. intros key Hkey%list_elem_of_In. simpl.
    by rewrite (bool_decide_eq_true_2 _ (Hm key Hkey)).
Qed.

Lemma tuple_in_batch posts seq_of_parameters id user_id title body :
  Forall2 is_tuple_of (List.filter accepted posts) seq_of_parameters →
  (id, user_id, title, body) ∈ seq_of_parameters →
  ∃ m, JObj m ∈ posts ∧ complete m ∧ m !! "id" = Some id.
Proof.
  intros Htuples (i & Hi)%list_elem_of_lookup.
  destruct (Forall2_lookup_r _ _ _ _ _ Htuples Hi) as (post & Hpost & Htuple).
  destruct Htuple as (m & ? & ? & ? & ? & -> & Hid & _ & _ & _ & [= <- <- <- <-]).
  apply list_elem_of_lookup_2, list_elem_of_In, filter_In in Hpost as [Hin Hacc].
  exists m. split; [by apply list_elem_of_In|].
  split; [by apply accepted_dict|done].
Qed.



Lemma committed_with_row_again z row w :
  unavailable (conn w) = None →
  committed (with_row z row (add_log InfoSavedToDatabase (committed (with_row z row w))))
  = add_log InfoSavedToDatabase (committed (with_row z row w)).
Proof.
  intros Hu. unfold committed, with_row, add_log, set_conn. simpl.
  by rewrite insert_insert_eq.
Qed.

(** A complete payload on its own, when its [id] is stored under [z]: the
    batch write stores its row under that key, and the commit makes it
    durable. *)
Lemma save_to_db_single rowid_of_text m id z user_id title body w sql_id row :
  complete m →
  m !! "id" = Some id → m !! "userId" = Some user_id →
  m !! "title" = Some title → m !! "body" = Some body →
  adapted id = inr sql_id →
  resolve_rowid rowid_of_text (working (conn w)) sql_id = inr z →
  payload_row m = Some row →
  unavailable (conn w) = None →
  save_to_db rowid_of_text [JObj m] w
    = (Return tt, add_log InfoSavedToDatabase (committed (with_row z row w))).
Proof.
  intros Hm Hid Hu Ht Hb Hz Hkey Hrow Hav.
  unfold save_to_db. rewrite bind_run. cbn [collect_valid_posts].
  pose proof (complete_accepted m Hm) as [Htrue _]%andb_true_iff.
  rewrite Htrue, bind_run, all_keys_exist_dict, (bool_decide_eq_true_2 _ Hm).
  cbn [collect_valid_posts app]. unfold ret at 1.
  rewrite bind_run. cbn [mapM]. rewrite bind_run.
  unfold post_tuple, py_getitem.
  rewrite bind_run, lift_run. cbn [getitem]. rewrite Hid.
  rewrite bind_run, lift_run. cbn [getitem]. rewrite Hu.
  rewrite bind_run, lift_run. cbn [getitem]. rewrite Ht.
  rewrite bind_run, lift_run. cbn [getitem]. rewrite Hb.
  unfold ret at 1. rewrite bind_run. unfold mret, M_ret, ret at 1.
  unfold mret, M_ret, ret at 1.
  rewrite bind_run, cursor_executemany_cons, bind_run, bind_parameters_run.
  unfold payload_row in Hrow. rewrite Hu, Ht, Hb in Hrow. simpl in Hrow.
  rewrite Hz.
  destruct (adapted user_id) as [|sql_user_id]; [done|].
  destruct (adapted title) as [|sql_title]; [done|].
  destruct (adapted body) as [|sql_body]; [done|].
  injection Hrow as <-.
  by rewrite insert_or_replace_run, Hav, Hkey.
Qed.

(** C3, as the script has it: when a batch ending with a complete payload
    whose [id] is not bound as NULL has been written, the [id] names a key
    and the table holds under that key the row of this payload, whatever
    the batch wrote before it (last write wins); and persisting the payload
    again changes no row. *)
Theorem upsert_last_write_wins rowid_of_text before m id w w1 :
  complete m →
  m !! "id" = Some id →
  adapted id ≠ inr SqlNull →
  save_to_db rowid_of_text (before ++ [JObj m]) w = (Return tt, w1) →
  ∃ z row,
    payload_rowid rowid_of_text m = Some z ∧
    payload_row m = Some row ∧
    durable (conn w1) !! z = Some row ∧
    save_to_db rowid_of_text [JObj m] w1
      = (Return tt, add_log InfoSavedToDatabase w1).
Proof.
  intros Hm Hid Hnull Hsave.
  destruct (save_to_db_run rowid_of_text (before ++ [JObj m]) w)
    as [[e He]|(seq_of_parameters & _ & _ & Htuples & Hrun)]; [congruence|].
  rewrite Hrun in Hsave. clear Hrun.
  rewrite List.filter_app in Htuples. cbn [List.filter] in Htuples.
  rewrite (complete_accepted m Hm) in Htuples.
  apply Forall2_app_inv_l in Htuples as (seq1 & seq2 & _ & Hlast & ->).
  apply Forall2_cons_inv_l in Hlast as (params & rest & Htuple & Hnil & ->).
  apply Forall2_nil_inv_l in Hnil as ->.
  destruct Htuple
    as (m' & id' & user_id & title & body & [= <-] & Hid' & Hu & Ht & Hb & ->).
  rewrite Hid in Hid'. injection Hid' as <-.
  rewrite cursor_executemany_app in Hsave.
  destruct (cursor_executemany rowid_of_text seq1 w) as [[[]|e|] w0] eqn:Hfirst;
    [|done..].
  apply cursor_executemany_frame in Hfirst as (_ & _ & Hav & _).
  rewrite cursor_executemany_cons in Hsave.
  destruct ((values ← bind_parameters (id, user_id, title, body);
             insert_or_replace rowid_of_text values) w0) as [r1 w2] eqn:Hone.
  apply execute_one_run in Hone
    as [(e & -> & ->)
       |(sid & su & st & sb & z & -> & Hz & Hsu & Hst & Hsb & Hav0 & Hrowid & ->)];
    [done|].
  cbn in Hsave. unfold ret in Hsave. injection Hsave as <-.
  assert (id ≠ JNull) as Hid_null by (by intros ->).
  pose proof (resolve_rowid_not_null _ _ _ _ _ Hid_null Hz Hrowid) as Hkey.
  assert (payload_row m = Some (su, st, sb)) as Hrow.
  { unfold payload_row. rewrite Hu, Ht, Hb. simpl. by rewrite Hsu, Hst, Hsb. }
  exists z, (su, st, sb).
  split; [unfold payload_rowid; by rewrite Hid|].
  split; [done|]. split.
  - simpl. apply lookup_insert_eq.
  - rewrite (save_to_db_single rowid_of_text m id z user_id title body
               (add_log InfoSavedToDatabase
                  (committed (with_row z (su, st, sb) w0)))
               sid (su, st, sb) Hm Hid Hu Ht Hb Hz
               (resolve_rowid_resolved _ _ id sid z Hz Hkey) Hrow Hav0).
    by rewrite committed_with_row_again.
Qed.

Lemma upsert_last_write_wins_witness :
  ∃ z row,
    payload_rowid decimal_rowid (<["id" := JStr "12"]> first_post) = Some z ∧
    payload_row (<["id" := JStr "12"]> first_post) = Some row ∧
    durable (conn (save_to_db decimal_rowid
                     ([JObj (<["id" := JInt 12]> untitled_post)]
                      ++ [JObj (<["id" := JStr "12"]> first_post)])
                     empty_world).2) !! z = Some row ∧
    save_to_db decimal_rowid [JObj (<["id" := JStr "12"]> first_post)]
      (save_to_db decimal_rowid
         ([JObj (<["id" := JInt 12]> untitled_post)]
          ++ [JObj (<["id" := JStr "12"]> first_post)])
         empty_world).2
    = (Return tt,
       add_log InfoSavedToDatabase
         (save_to_db decimal_rowid
            ([JObj (<["id" := JInt 12]> untitled_post)]
             ++ [JObj (<["id" := JStr "12"]> first_post)])
            empty_world).2).
Proof.
  apply (upsert_last_write_wins decimal_rowid
           [JObj (<["id" := JInt 12]> untitled_post)]
           (<["id" := JStr "12"]> first_post) (JStr "12") empty_world).
  - apply (bool_decide_unpack _). by vm_compute.
  - by vm_compute.
  - discriminate.
  - by vm_compute.
Defined.

(** C3 as stated fails: a complete payload whose [id] is null is stored
    under a new key each time it is persisted. *)
Lemma null_id_is_stored_twice : ¬ persisting_twice_leaves_one_row.
Proof.
  intros H.
  assert (complete anonymous_post) as Hm.
  { apply (bool_decide_unpack _). by vm_compute. }
  set (w1 := (save_to_db decimal_rowid [JObj anonymous_post] empty_world).2).
  set (w2 := (save_to_db decimal_rowid [JObj anonymous_post] w1).2).
  assert (save_to_db decimal_rowid [JObj anonymous_post] empty_world
          = (Return tt, w1)) as H1 by (by vm_compute).
  assert (save_to_db decimal_rowid [JObj anonymous_post] w1
          = (Return tt, w2)) as H2 by (by vm_compute).
  specialize (H decimal_rowid anonymous_post w1 w2 Hm H1 H2).
  clear H1 H2. vm_compute in H. discriminate H.
Qed.

(** ** The tabular sink *)

Lemma exportable_dict m :
  exportable (JObj m) = true ↔ ∀ key, is_Some (m !! key) → key ∈ fieldnames.
Proof.
  unfold exportable. rewrite bool_decide_eq_true. split.
  - intros H key Hkey%elem_of_dom. apply H in Hkey.
    by apply elem_of_list_to_set in Hkey.
  - intros H key Hkey%elem_of_dom. apply elem_of_list_to_set. by apply H.
Qed.

Lemma dict_to_list_run post w :
  dict_to_list post w
  = (if exportable post then Return (record_of post)
     else match post with
          | JObj _ => Raise ValueError
          | _ => Raise AttributeError
          end, w).
Proof.
  destruct post as [| | | | |m]; try done.
  unfold dict_to_list, exportable.
  assert (bool_decide (dom m ∖ list_to_set fieldnames = (∅ : gset string))
          = bool_decide (dom m ⊆ list_to_set (C := gset string) fieldnames)) as ->.
  { apply bool_decide_ext. split.
    - intros H key Hkey.
      destruct (decide (key ∈ (list_to_set fieldnames : gset string))) as [|Hn];
        [done|].
      assert (key ∈ dom m ∖ list_to_set fieldnames) as Hd
        by (by apply elem_of_difference).
      rewrite H in Hd. by apply not_elem_of_empty in Hd.
    - intros H. apply set_eq. intros key. rewrite elem_of_difference. split.
      + intros [Hkey Hn]. by apply H in Hkey.
      + by intros ?%not_elem_of_empty. }
  by case_bool_decide.
Qed.

Lemma writerows_run posts : ∀ file w,
  csv_file w = Some file →
  DictWriter_writerows posts w
  = (writerows_result posts, set_csv_file (Some (file ++ written posts)) w).
Proof.
  induction posts as [|post posts IH]; intros file w Hfile.
  { cbn. unfold ret, set_csv_file. rewrite app_nil_r, <- Hfile. by destruct w. }
  cbn [DictWriter_writerows written writerows_result].
  rewrite bind_run. unfold DictWriter_writerow.
  rewrite bind_run, dict_to_list_run.
  destruct (exportable post).
  - unfold writer_writerow, modify. rewrite Hfile. cbn [default].
    rewrite (IH (file ++ [record_of post])) by done.
    unfold set_csv_file. simpl. by rewrite <- app_assoc.
  - rewrite app_nil_r. unfold set_csv_file. rewrite <- Hfile.
    by destruct post, w.
Qed.

Lemma writeheader_run w :
  csv_file w = Some [] →
  DictWriter_writeheader w = (Return tt, set_csv_file (Some [header_record]) w).
Proof.
  intros Hfile. unfold DictWriter_writeheader, DictWriter_writerow.
  rewrite bind_run, dict_to_list_run.
  assert (exportable (JObj (list_to_map (zip fieldnames (JStr <$> fieldnames))))
          = true) as -> by (by vm_compute).
  unfold writer_writerow, modify. rewrite Hfile. f_equal.
Qed.

(** What [save_to_csv] leaves: a new file with the header and the records
    written before [writerows] stopped, whatever the file held before. *)
Lemma save_to_csv_run posts w :
  save_to_csv posts w
  = match writerows_result posts with
    | Return _ =>
        (Return tt,
         add_log InfoSavedToCsv
           (set_csv_file (Some (header_record :: written posts)) w))
    | r => (r, set_csv_file (Some (header_record :: written posts)) w)
    end.
Proof.
  unfold save_to_csv. rewrite bind_run. unfold open_w, modify.
  rewrite bind_run, writeheader_run by done.
  rewrite bind_run, (writerows_run posts [header_record]) by done.
  by destruct (writerows_result posts) as [[]|e|].
Qed.

Lemma written_exportable before rest :
  Forall (λ post, exportable post = true) before →
  written (before ++ rest) = (record_of <$> before) ++ written rest ∧
  writerows_result (before ++ rest) = writerows_result rest.
Proof.
  induction 1 as [|post before Hpost _ [IH1 IH2]]; [done|].
  cbn. rewrite Hpost. by rewrite IH1, IH2.
Qed.

Lemma writerows_result_Return posts :
  writerows_result posts = Return tt →
  written posts = record_of <$> posts.
Proof.
  induction posts as [|post posts IH]; [done|]. cbn.
  destruct (exportable post).
  - intros H. by rewrite IH.
  - by destruct post.
Qed.


(** ** The pipeline *)

(** Fetching only writes to the log, in whatever order the tasks complete. *)
Lemma run_tasks_logs session base_url post_ids schedule : ∀ slots w,
  ∃ r records,
    run_tasks (map (fetch_post session base_url) post_ids) schedule slots w
    = (r, add_logs records w).
Proof.
  induction schedule as [|i schedule IH]; intros slots w; cbn [run_tasks].
  { exists (Return slots), []. by rewrite add_logs_nil. }
  destruct (map _ post_ids !! i) as [task|] eqn:Htask; [|apply IH].
  destruct (slots !! i) as [[r|]|]; [apply IH| |apply IH].
  change (map ?f ?l) with (f <$> l) in Htask.
  rewrite list_lookup_fmap in Htask.
  destruct (post_ids !! i) as [post_id|]; simplify_eq/=.
  rewrite bind_run, fetch_post_outcome.
  edestruct IH as (r & records & ->).
  eexists r, _. by rewrite add_logs_app.
Qed.

Lemma fetch_all_posts_frame session schedule base_url post_ids w r w0 :
  fetch_all_posts session schedule base_url post_ids w = (r, w0) →
  conn w0 = conn w ∧ csv_file w0 = csv_file w.
Proof.
  unfold fetch_all_posts, gather. rewrite !bind_run.
  destruct (run_tasks_logs session base_url post_ids schedule
              (replicate (length (map (fetch_post session base_url) post_ids)) None) w)
    as (r1 & records & ->).
  destruct r1 as [slots|e|]; [|by intros [= <- <-]..].
  destruct (mapM id slots); cbn; by intros [= <- <-].
Qed.

Lemma main_run rowid_of_text session schedule base_url post_ids w posts w0 :
  fetch_all_posts session schedule base_url post_ids w = (Return posts, w0) →
  main rowid_of_text session schedule base_url post_ids w
  = match posts with
    | [] => (Return tt, w0)
    | _ :: _ =>
        match save_to_db rowid_of_text posts w0 with
        | (Return _, w1) => save_to_csv posts w1
        | (Raise e, w1) => (Raise e, w1)
        | (Blocked, w1) => (Blocked, w1)
        end
    end.
Proof.
  intros Hfetch. unfold main. rewrite bind_run, Hfetch.
  destruct posts; [done|]. by rewrite bind_run.
Qed.

(** C7: when the batch write of a run raises, [save_to_db] raises the same
    error at once (nothing is committed, nothing more is logged), [main]
    raises it too and the export is not written, and the script ends on
    that error with the table as it was before the run; a fetch, by
    contrast, always returns. *)
Theorem storage_failure_propagates rowid_of_text session schedule base_url
    post_ids w posts w0 valid_posts seq_of_parameters e w1 :
  fetch_all_posts session schedule base_url post_ids w = (Return posts, w0) →
  posts ≠ [] →
  collect_valid_posts posts [] w0 = (Return valid_posts, w0) →
  mapM post_tuple valid_posts w0 = (Return seq_of_parameters, w0) →
  cursor_executemany rowid_of_text seq_of_parameters w0 = (Raise e, w1) →
  save_to_db rowid_of_text posts w0 = (Raise e, w1) ∧
  main rowid_of_text session schedule base_url post_ids w = (Raise e, w1) ∧
  run rowid_of_text session schedule base_url post_ids w = (Raise e, closed w1) ∧
  durable (conn (closed w1)) = durable (conn w) ∧
  csv_file w1 = csv_file w ∧
  log w1 = log w0 ∧
  ∀ post_id w2, ∃ v w3, fetch_post session base_url post_id w2 = (Return v, w3).
Proof.
  intros Hfetch Hposts Hvalid Htuples Hwrite.
  assert (save_to_db rowid_of_text posts w0 = (Raise e, w1)) as Hsave.
  { unfold save_to_db. rewrite bind_run, Hvalid, bind_run, Htuples, bind_run.
    by rewrite Hwrite. }
  assert (main rowid_of_text session schedule base_url post_ids w = (Raise e, w1))
    as Hmain.
  { rewrite (main_run _ _ _ _ _ _ _ _ Hfetch), Hsave. by destruct posts. }
  split; [done|]. split; [done|].
  split; [unfold run; by rewrite Hmain|].
  apply fetch_all_posts_frame in Hfetch as [Hconn Hcsv].
  apply cursor_executemany_frame in Hwrite as (_ & Hd & _ & Hcsv1 & Hlog & _).
  split; [simpl; congruence|]. split; [congruence|]. split; [done|].
  intros post_id w2. eexists _, _. apply fetch_post_outcome.
Qed.

Lemma storage_failure_propagates_witness :
  main decimal_rowid sample_session [0] sample_url [IdInt 1] unavailable_world
  = (Raise (Sqlite3Error (OperationalError "unable to open database file")),
     add_logs [InfoFetchedCount 1 1 0] unavailable_world).
Proof.
  refine (proj1 (proj2 (storage_failure_propagates decimal_rowid sample_session [0]
                          sample_url [IdInt 1] unavailable_world
                          [post 1 1 "first" "text"]
                          (add_logs [InfoFetchedCount 1 1 0] unavailable_world)
                          [post 1 1 "first" "text"]
                          [(JInt 1, JInt 1, JStr "first", JStr "text")]
                          _ _ _ _ _ _ _)));
    by vm_compute.
Defined.

(** C9: when a payload of the batch has a field beyond the four columns
    (and those before it have none), [save_to_csv] raises ValueError after
    the relational write has been committed: the run stops on that error,
    the table keeps the rows of the batch, and the export holds the header
    and the records of the earlier payloads only. *)
Theorem extra_field_aborts_export rowid_of_text session schedule base_url
    post_ids w posts w0 w1 before m after :
  fetch_all_posts session schedule base_url post_ids w = (Return posts, w0) →
  posts = before ++ JObj m :: after →
  Forall (λ post, exportable post = true) before →
  (∃ key, is_Some (m !! key) ∧ key ∉ fieldnames) →
  save_to_db rowid_of_text posts w0 = (Return tt, w1) →
  main rowid_of_text session schedule base_url post_ids w
  = (Raise ValueError,
     set_csv_file (Some (header_record :: (record_of <$> before))) w1).
Proof.
  intros Hfetch -> Hbefore (key & Hkey & Hextra) Hsave.
  rewrite (main_run _ _ _ _ _ _ _ _ Hfetch), Hsave.
  assert (exportable (JObj m) = false) as Hm.
  { apply not_true_is_false. intros H. rewrite exportable_dict in H.
    by apply Hextra, H. }
  rewrite save_to_csv_run.
  destruct (written_exportable before (JObj m :: after) Hbefore) as [-> ->].
  cbn [written writerows_result]. rewrite Hm, app_nil_r.
  by destruct before.
Qed.

Lemma extra_field_aborts_export_witness :
  main decimal_rowid sample_session [0; 1] sample_url [IdInt 1; IdInt 8] empty_world
  = (Raise ValueError,
     set_csv_file (Some (header_record :: (record_of <$> [post 1 1 "first" "text"])))
       (add_log InfoSavedToDatabase
          (committed
             (with_row 8 (SqlInteger 1, SqlText "eighth", SqlText "text")
                (with_row 1 (SqlInteger 1, SqlText "first", SqlText "text")
                   (add_logs [InfoFetchedCount 2 2 0] empty_world)))))).
Proof.
  refine (extra_field_aborts_export decimal_rowid sample_session [0; 1] sample_url
            [IdInt 1; IdInt 8] empty_world
            [post 1 1 "first" "text"; JObj tracked_post]
            (add_logs [InfoFetchedCount 2 2 0] empty_world) _
            [post 1 1 "first" "text"] tracked_post [] _ _ _ _ _).
  - by vm_compute.
  - done.
  - constructor; [by vm_compute|constructor].
  - exists "views". split.
    + eexists. by vm_compute.
    + apply (bool_decide_unpack _). by vm_compute.
  - by vm_compute.
Defined.




(** C4, as the script has it: after a run that returns, the export has one
    data record per success when the run had a success, and is what it was
    before the run when it had none. *)
Theorem export_rows_match_successes rowid_of_text session schedule base_url
    post_ids w posts w0 w' :
  fetch_all_posts session schedule base_url post_ids w = (Return posts, w0) →
  main rowid_of_text session schedule base_url post_ids w = (Return tt, w') →
  (posts ≠ [] → data_rows (csv_file w') = length posts) ∧
  (posts = [] → csv_file w' = csv_file w).
Proof.
  intros Hfetch Hmain.
  rewrite (main_run _ _ _ _ _ _ _ _ Hfetch) in Hmain.
  destruct posts as [|post posts].
  { injection Hmain as <-. split; [done|]. intros _.
    by apply fetch_all_posts_frame in Hfetch as [_ ?]. }
  split; [intros _|done].
  destruct (save_to_db rowid_of_text (post :: posts) w0) as [[[]|e|] w1];
    [|done..].
  rewrite save_to_csv_run in Hmain.
  destruct (writerows_result (post :: posts)) as [[]|e|] eqn:Hrows; [|done..].
  rewrite (writerows_result_Return _ Hrows) in Hmain.
  injection Hmain as <-. simpl. by rewrite length_fmap.
Qed.

Lemma export_rows_match_successes_witness :
  data_rows (csv_file (main decimal_rowid sample_session [1; 0] sample_url
                         [IdInt 1; IdInt 2] empty_world).2)
  = length [post 1 1 "first" "text"].
Proof.
  refine (proj1 (export_rows_match_successes decimal_rowid sample_session [1; 0]
                   sample_url [IdInt 1; IdInt 2] empty_world
                   [post 1 1 "first" "text"]
                   (fetch_all_posts sample_session [1; 0] sample_url
                      [IdInt 1; IdInt 2] empty_world).2
                   _ _ _) _); by vm_compute.
Defined.

(** C4 as stated fails: a run in which no fetch succeeds leaves the export
    of the run before it, with its one data record. *)
Lemma export_keeps_rows_of_earlier_run : ¬ export_rows_equal_successes.
Proof.
  intros H.
  set (w := (main decimal_rowid sample_session [0] sample_url [IdInt 1]
               empty_world).2).
  set (w' := (main decimal_rowid sample_session [0] sample_url [IdInt 5] w).2).
  assert (fetch_all_posts sample_session [0] sample_url [IdInt 5] w
          = (Return [], w')) as Hfetch by (by vm_compute).
  assert (main decimal_rowid sample_session [0] sample_url [IdInt 5] w
          = (Return tt, w')) as Hmain by (by vm_compute).
  specialize (H _ _ _ _ _ _ _ _ _ Hfetch Hmain).
  clear Hfetch Hmain. vm_compute in H. discriminate H.
Qed.

(** C6, as the script has it: when a run that follows another one has at
    least one success and returns, the export holds the header and the
    records of that run's payloads, in their order, and nothing of what
    the earlier run left. *)
Theorem second_run_overwrites_export rowid_of_text base_url
    session1 schedule1 post_ids1 session2 schedule2 post_ids2
    w r w' posts w0 w'' :
  main rowid_of_text session1 schedule1 base_url post_ids1 w = (r, w') →
  fetch_all_posts session2 schedule2 base_url post_ids2 w' = (Return posts, w0) →
  posts ≠ [] →
  main rowid_of_text session2 schedule2 base_url post_ids2 w' = (Return tt, w'') →
  csv_file w'' = Some (header_record :: (record_of <$> posts)).
Proof.
  intros _ Hfetch Hposts Hmain.
  rewrite (main_run _ _ _ _ _ _ _ _ Hfetch) in Hmain.
  destruct posts as [|post posts]; [done|].
  destruct (save_to_db rowid_of_text (post :: posts) w0) as [[[]|e|] w1];
    [|done..].
  rewrite save_to_csv_run in Hmain.
  destruct (writerows_result (post :: posts)) as [[]|e|] eqn:Hrows; [|done..].
  rewrite (writerows_result_Return _ Hrows) in Hmain.
  by injection Hmain as <-.
Qed.

Lemma second_run_overwrites_export_witness :
  csv_file
    (main decimal_rowid sample_session [0] sample_url [IdInt 7]
       (main decimal_rowid sample_session [0] sample_url [IdInt 1] empty_world).2).2
  = Some (header_record :: (record_of <$> [JObj untitled_post])).
Proof.
  refine (second_run_overwrites_export decimal_rowid sample_url
            sample_session [0] [IdInt 1] sample_session [0] [IdInt 7]
            empty_world
            (main decimal_rowid sample_session [0] sample_url [IdInt 1] empty_world).1
            (main decimal_rowid sample_session [0] sample_url [IdInt 1] empty_world).2
            [JObj untitled_post]
            (fetch_all_posts sample_session [0] sample_url [IdInt 7]
               (main decimal_rowid sample_session [0] sample_url [IdInt 1]
                  empty_world).2).2
            _ _ _ _ _); by vm_compute.
Defined.

(** C6 as stated fails: a second run in which no fetch succeeds does not
    write the export, which still holds the record of the first run. *)
Lemma export_survives_empty_run : ¬ second_run_replaces_export.
Proof.
  intros H.
  set (w' := (main decimal_rowid sample_session [0] sample_url [IdInt 1]
                empty_world).2).
  set (w'' := (main decimal_rowid sample_session [0] sample_url [IdInt 5] w').2).
  assert (fetch_all_posts sample_session [0] sample_url [IdInt 1] empty_world
          = (Return [post 1 1 "first" "text"],
             (fetch_all_posts sample_session [0] sample_url [IdInt 1]
                empty_world).2)) as Hfetch1 by (by vm_compute).
  assert (main decimal_rowid sample_session [0] sample_url [IdInt 1] empty_world
          = (Return tt, w')) as Hmain1 by (by vm_compute).
  assert (fetch_all_posts sample_session [0] sample_url [IdInt 5] w'
          = (Return [], w'')) as Hfetch2 by (by vm_compute).
  assert (main decimal_rowid sample_session [0] sample_url [IdInt 5] w'
          = (Return tt, w'')) as Hmain2 by (by vm_compute).
  specialize (H _ _ _ _ _ _ _ _ _ _ _ _ _ _ _ Hfetch1 Hmain1 Hfetch2 Hmain2).
  clear Hfetch1 Hmain1 Hfetch2 Hmain2.
  assert (csv_file w'' = Some (header_record :: (record_of <$> []))) as Hfile.
  { apply H. intros post _ Hin. by apply elem_of_nil in Hin. }
  vm_compute in Hfile. discriminate Hfile.
Qed.

(** * Further properties *)

(** ** Fetching *)

Lemma bind_by_position {A B} (l : list A) (f : A → list B) :
  seq 0 (length l) ≫= (λ i, match l !! i with Some x => f x | None => [] end)
  = l ≫= f.
Proof.
  induction l as [|x l IH] using rev_ind; [done|].
  rewrite length_app, Nat.add_1_r, seq_S, !bind_app. cbn [length].
  f_equal.
  - rewrite <- IH. apply Forall_bind_ext, Forall_forall.
    intros i [_ Hi]%elem_of_seq. by rewrite lookup_app_l by lia.
  - cbn. by rewrite list_lookup_middle, !app_nil_r.
Qed.

(** The log records of a batch, whatever the order of completion, are
    those of its failures, one each. *)
Lemma fetch_log_permutation session base_url post_ids schedule :
  schedule ≡ₚ seq 0 (length post_ids) →
  fetch_log session base_url post_ids schedule
  ≡ₚ post_ids ≫= λ post_id,
       logged (request_url base_url post_id) (outcome_of session base_url post_id).
Proof.
  intros Hperm. unfold fetch_log. rewrite Hperm.
  by rewrite (bind_by_position post_ids
                (λ post_id, logged (request_url base_url post_id)
                              (outcome_of session base_url post_id))).
Qed.

Lemma length_logged_failures session base_url post_ids :
  length (post_ids ≫= λ post_id,
            logged (request_url base_url post_id)
              (outcome_of session base_url post_id))
  = length (List.filter (is_failure ∘ outcome_of session base_url) post_ids).
Proof.
  induction post_ids as [|post_id post_ids IH]; [done|].
  rewrite bind_cons, length_app, IH. cbn.
  by destruct (outcome_of session base_url post_id) as [|[]].
Qed.

Lemma length_valid_results_complement (results : list Json) :
  length (valid_results results)
  + length (List.filter (λ r, negb (is_not_None r)) results)
  = length results.
Proof. apply List.filter_length. Qed.

(** X1: the payloads [fetch_all_posts] returns do not depend on the order
    in which the fetches complete; two orders give the same list, and logs
    that hold the same records, ending with the same summary. *)
Theorem fetch_all_posts_any_order session base_url post_ids schedule1 schedule2 w :
  schedule1 ≡ₚ seq 0 (length post_ids) →
  schedule2 ≡ₚ seq 0 (length post_ids) →
  ∃ posts w1 w2,
    fetch_all_posts session schedule1 base_url post_ids w = (Return posts, w1) ∧
    fetch_all_posts session schedule2 base_url post_ids w = (Return posts, w2) ∧
    log w1 ≡ₚ log w2 ∧
    last (log w1) = last (log w2).
Proof.
  intros H1 H2. eexists _, _, _.
  split; [by apply fetch_all_posts_run|].
  split; [by apply fetch_all_posts_run|].
  simpl. split.
  - by rewrite !fetch_log_permutation.
  - by rewrite !app_assoc, !last_snoc.
Qed.

Lemma fetch_all_posts_any_order_witness :
  ∃ posts w1 w2,
    fetch_all_posts sample_session [0; 1; 2] sample_url
      [IdInt 2; IdInt 1; IdInt 5] empty_world = (Return posts, w1) ∧
    fetch_all_posts sample_session [2; 0; 1] sample_url
      [IdInt 2; IdInt 1; IdInt 5] empty_world = (Return posts, w2) ∧
    log w1 ≡ₚ log w2 ∧
    last (log w1) = last (log w2).
Proof.
  apply fetch_all_posts_any_order.
  - done.
  - change (seq 0 (length [IdInt 2; IdInt 1; IdInt 5])) with [0; 1; 2].
    apply (Permutation_cons_append [0; 1] 2).
Defined.

(** X2: the summary [fetch_all_posts] logs last counts the identifiers, the
    payloads returned and the fetches that gave [None]; the two add up to
    the first, and before it the call logs one error record per failed
    fetch. *)
Theorem fetch_summary_counts session schedule base_url post_ids w :
  schedule ≡ₚ seq 0 (length post_ids) →
  ∃ posts w' failed,
    fetch_all_posts session schedule base_url post_ids w = (Return posts, w') ∧
    last (log w')
      = Some (InfoFetchedCount (length post_ids) (length posts) failed) ∧
    length posts + failed = length post_ids ∧
    failed
      = length (List.filter
                  (λ post_id,
                     negb (is_not_None (returned (outcome_of session base_url post_id))))
                  post_ids) ∧
    length (log w')
      = length (log w)
        + length (List.filter (is_failure ∘ outcome_of session base_url) post_ids)
        + 1.
Proof.
  intros Hperm. eexists _, _, _.
  split; [by apply fetch_all_posts_run|].
  pose proof (length_valid_results_complement
                (returned ∘ outcome_of session base_url <$> post_ids)) as Hlen.
  rewrite length_fmap in Hlen.
  assert (length (List.filter (λ r, negb (is_not_None r))
                    (returned ∘ outcome_of session base_url <$> post_ids))
          = length (List.filter
                      (λ post_id,
                         negb (is_not_None
                                 (returned (outcome_of session base_url post_id))))
                      post_ids)) as Hnone.
  { clear. induction post_ids as [|post_id post_ids IH]; [done|].
    cbn. destruct (negb _); cbn; by rewrite IH. }
  rewrite Hnone in Hlen. clear Hnone.
  split; [simpl; by rewrite app_assoc, last_snoc|].
  split; [lia|]. split; [lia|].
  simpl. rewrite !length_app, (fetch_log_permutation _ _ _ _ Hperm).
  rewrite length_logged_failures. simpl. lia.
Qed.

Lemma fetch_summary_counts_witness :
  ∃ posts w' failed,
    fetch_all_posts sample_session [0; 1] sample_url [IdInt 1; IdInt 4] empty_world
      = (Return posts, w') ∧
    last (log w') = Some (InfoFetchedCount 2 (length posts) failed) ∧
    length posts + failed = 2 ∧
    failed = 1 ∧
    length (log w') = 0 + 0 + 1.
Proof.
  exact (fetch_summary_counts sample_session [0; 1] sample_url
           [IdInt 1; IdInt 4] empty_world (reflexivity _)).
Defined.

(** ** The command line *)

Lemma run_tasks_no_task schedule w : run_tasks [] schedule [] w = (Return [], w).
Proof. induction schedule as [|i schedule IH]; [done|]. by cbn. Qed.

(** X3: without [--test] the identifiers are the integers from [--start] to
    [--end], both included, each once and in increasing order (none when
    [--end] is below [--start]), and they are fetched under DEFAULT_URL. *)
Theorem script_post_ids_range args :
  args_test args = false →
  script_base_url args = DEFAULT_URL ∧
  length (script_post_ids args)
    = Z.to_nat (args_end args - args_start args + 1) ∧
  (∀ i, IdInt i ∈ script_post_ids args
        ↔ (args_start args ≤ i ≤ args_end args)%Z) ∧
  (∀ j post_id, script_post_ids args !! j = Some post_id →
                post_id = IdInt (args_start args + Z.of_nat j)).
Proof.
  intros Htest. unfold script_base_url, script_post_ids, py_range.
  rewrite Htest.
  replace (args_end args + 1 - args_start args)%Z
    with (args_end args - args_start args + 1)%Z by lia.
  split; [done|]. split; [by rewrite !length_fmap, length_seq|].
  split.
  - intros i. rewrite list_elem_of_fmap. split.
    + intros (z & [= ->] & (j & -> & [_ Hj]%elem_of_seq)%list_elem_of_fmap). lia.
    + intros Hi. exists i. split; [done|].
      apply list_elem_of_fmap. exists (Z.to_nat (i - args_start args)).
      split; [lia|]. apply elem_of_seq. lia.
  - intros j post_id. rewrite !list_lookup_fmap.
    destruct (seq 0 _ !! j) as [k|] eqn:Hk; [|done].
    apply lookup_seq in Hk as [-> _]. by intros [= <-].
Qed.

Lemma script_post_ids_range_witness :
  script_base_url {| args_test := false; args_start := 1; args_end := 20 |}
    = DEFAULT_URL ∧
  length (script_post_ids {| args_test := false; args_start := 1; args_end := 20 |})
    = 20 ∧
  (∀ i, IdInt i ∈ script_post_ids
                    {| args_test := false; args_start := 1; args_end := 20 |}
        ↔ (1 ≤ i ≤ 20)%Z) ∧
  (∀ j post_id,
     script_post_ids {| args_test := false; args_start := 1; args_end := 20 |} !! j
       = Some post_id →
     post_id = IdInt (1 + Z.of_nat j)).
Proof.
  exact (script_post_ids_range
           {| args_test := false; args_start := 1; args_end := 20 |} eq_refl).
Defined.

(** X4: without [--test], when [--end] is below [--start] the script
    fetches nothing and returns: it only logs a summary of zero fetches,
    and writes neither the table nor the export. *)
Theorem script_with_empty_range rowid_of_text args session schedule w :
  args_test args = false →
  (args_end args < args_start args)%Z →
  script rowid_of_text args session schedule w
    = (Return tt, closed (add_log (InfoFetchedCount 0 0 0) w)).
Proof.
  intros Htest Hrange. unfold script, script_post_ids, py_range, run, main.
  rewrite Htest.
  replace (Z.to_nat (args_end args + 1 - args_start args)) with 0 by lia.
  cbn [seq fmap list_fmap]. unfold fetch_all_posts, gather.
  cbn [map length replicate]. rewrite !bind_run, run_tasks_no_task.
  done.
Qed.

Lemma script_with_empty_range_witness :
  script decimal_rowid {| args_test := false; args_start := 5; args_end := 3 |}
    sample_session [0; 1] world_with_post_7
  = (Return tt, closed (add_log (InfoFetchedCount 0 0 0) world_with_post_7)).
Proof.
  by apply script_with_empty_range.
Defined.

(** ** What a run that returns says of its payloads *)

Lemma writerows_result_exportable posts :
  writerows_result posts = Return tt →
  Forall (λ post, exportable post = true) posts.
Proof.
  induction posts as [|post posts IH]; [done|]. cbn.
  destruct (exportable post) eqn:Hpost.
  - intros H. constructor; [done|by apply IH].
  - by destruct post.
Qed.

(** X5: a run that returns had only JSON objects with no key outside the
    four columns among its payloads: any other payload (a list, a string,
    a number, an object with one more field) makes the run raise. *)
Theorem main_returns_only_on_objects rowid_of_text session schedule base_url
    post_ids w posts w0 w' :
  fetch_all_posts session schedule base_url post_ids w = (Return posts, w0) →
  main rowid_of_text session schedule base_url post_ids w = (Return tt, w') →
  ∀ post, post ∈ posts →
    ∃ m, post = JObj m ∧ ∀ key, is_Some (m !! key) → key ∈ fieldnames.
Proof.
  intros Hfetch Hmain post Hpost.
  rewrite (main_run _ _ _ _ _ _ _ _ Hfetch) in Hmain.
  destruct posts as [|post0 posts]; [by apply elem_of_nil in Hpost|].
  destruct (save_to_db rowid_of_text (post0 :: posts) w0) as [[[]|e|] w1];
    [|done..].
  rewrite save_to_csv_run in Hmain.
  destruct (writerows_result (post0 :: posts)) as [[]|e|] eqn:Hrows; [|done..].
  apply writerows_result_exportable in Hrows.
  rewrite Forall_forall in Hrows. specialize (Hrows post Hpost).
  destruct post as [| | | | |m]; try done.
  exists m. split; [done|]. by apply exportable_dict.
Qed.

Lemma main_returns_only_on_objects_witness :
  ∃ m, JObj untitled_post = JObj m ∧
       ∀ key, is_Some (m !! key) → key ∈ fieldnames.
Proof.
  refine (main_returns_only_on_objects decimal_rowid sample_session [0; 1]
            sample_url [IdInt 1; IdInt 7] empty_world
            [post 1 1 "first" "text"; JObj untitled_post]
            (fetch_all_posts sample_session [0; 1] sample_url [IdInt 1; IdInt 7]
               empty_world).2
            (main decimal_rowid sample_session [0; 1] sample_url
               [IdInt 1; IdInt 7] empty_world).2 _ _ (JObj untitled_post) _).
  - by vm_compute.
  - by vm_compute.
  - right. left.
Defined.

(** ** The relational sink on unusual batches *)

Lemma all_keys_exist_container keys post w :
  truthy_scalar post = false → truthy post = true →
  ∃ ok, all_keys_exist keys post w = (Return ok, w).
Proof.
  intros Hscalar Htruthy.
  induction keys as [|key keys [ok IH]]; [by exists true|].
  cbn [all_keys_exist]. rewrite bind_run. unfold py_in. rewrite lift_run.
  destruct post as [|[]|z| | |]; try done; cbn [contains].
  - simpl in *. by rewrite Htruthy in Hscalar.
  - destruct (negb _); [by exists false|by exists ok].
  - destruct (negb _); [by exists false|by exists ok].
  - destruct (negb _); [by exists false|by exists ok].
Qed.

(** X6: a payload that is a non-zero number or [true] makes [save_to_db]
    raise TypeError on its first [in] test, before anything is written,
    whatever follows it in the batch. *)
Theorem save_to_db_rejects_numbers rowid_of_text before post after w :
  Forall (λ earlier, truthy_scalar earlier = false) before →
  truthy_scalar post = true →
  save_to_db rowid_of_text (before ++ post :: after) w = (Raise TypeError, w).
Proof.
  intros Hbefore Hpost. unfold save_to_db. rewrite bind_run.
  assert (∀ valid_posts,
            collect_valid_posts (before ++ post :: after) valid_posts w
            = (Raise TypeError, w)) as ->; [|done].
  induction Hbefore as [|earlier before Hearlier _ IH]; intros valid_posts;
    cbn [app collect_valid_posts].
  - assert (truthy post = true) as -> by (by destruct post).
    rewrite bind_run. cbn [required_keys all_keys_exist].
    rewrite bind_run. unfold py_in. rewrite lift_run.
    by destruct post.
  - destruct (truthy earlier) eqn:Htruthy; [|apply IH].
    rewrite bind_run.
    destruct (all_keys_exist_container required_keys earlier w Hearlier Htruthy)
      as [ok ->].
    destruct ok; apply IH.
Qed.

Lemma save_to_db_rejects_numbers_witness :
  save_to_db decimal_rowid ([post 1 1 "first" "text"] ++ JInt 5 :: [])
    world_with_post_7
  = (Raise TypeError, world_with_post_7).
Proof.
  apply save_to_db_rejects_numbers.
  - by repeat constructor.
  - done.
Defined.

Lemma collect_valid_posts_incomplete posts w :
  Forall (λ post, ∃ m, post = JObj m ∧ ¬ complete m) posts →
  collect_valid_posts posts [] w = (Return [], w).
Proof.
  induction 1 as [|post posts (m & -> & Hm) _ IH]; [done|].
  rewrite <- IH. exact (collect_valid_posts_skip [] m posts [] w Hm).
Qed.

(** X7: when every payload of the batch lacks a required field,
    [save_to_db] writes no row, and still commits and logs that the data
    was saved. *)
Theorem save_to_db_without_complete_payload rowid_of_text posts w :
  Forall (λ post, ∃ m, post = JObj m ∧ ¬ complete m) posts →
  save_to_db rowid_of_text posts w
    = (Return tt, add_log InfoSavedToDatabase (committed w)).
Proof.
  intros Hposts. unfold save_to_db.
  by rewrite bind_run, collect_valid_posts_incomplete.
Qed.

Lemma save_to_db_without_complete_payload_witness :
  save_to_db decimal_rowid [JObj untitled_post; JObj partial_tracked_post]
    world_with_post_7
  = (Return tt, add_log InfoSavedToDatabase (committed world_with_post_7)).
Proof.
  apply save_to_db_without_complete_payload.
  repeat constructor.
  - exists untitled_post. split; [done|].
    apply (bool_decide_unpack _). by vm_compute.
  - exists partial_tracked_post. split; [done|].
    apply (bool_decide_unpack _). by vm_compute.
Defined.

(** ** More on the batch write *)

Lemma cursor_executemany_keeps_keys rowid_of_text seq_of_parameters : ∀ w r w' k,
  cursor_executemany rowid_of_text seq_of_parameters w = (r, w') →
  is_Some (working (conn w) !! k) → is_Some (working (conn w') !! k).
Proof.
  induction seq_of_parameters as [|[[[id user_id] title] body] rest IH];
    intros w r w' k.
  { cbn. unfold ret. by intros [= <- <-]. }
  rewrite cursor_executemany_cons.
  destruct ((values ← bind_parameters (id, user_id, title, body);
             insert_or_replace rowid_of_text values) w) as [r1 w1] eqn:Hone.
  apply execute_one_run in Hone
    as [(e & -> & ->)|(sid & su & st & sb & rowid & -> & _ & _ & _ & _ & _ & _ & ->)].
  { by intros [= <- <-]. }
  intros Hrest Hk. apply (IH _ _ _ _ Hrest). simpl.
  apply lookup_insert_is_Some. destruct (decide (rowid = k)); auto.
Qed.

Lemma cursor_executemany_Return rowid_of_text seq_of_parameters : ∀ w w',
  cursor_executemany rowid_of_text seq_of_parameters w = (Return tt, w') →
  (seq_of_parameters ≠ [] → unavailable (conn w) = None) ∧
  Forall (λ '(id, user_id, title, body),
            ∃ sql_id sql_user_id sql_title sql_body,
              adapted id = inr sql_id ∧ adapted user_id = inr sql_user_id ∧
              adapted title = inr sql_title ∧ adapted body = inr sql_body)
    seq_of_parameters.
Proof.
  induction seq_of_parameters as [|[[[id user_id] title] body] rest IH];
    intros w w'.
  { by intros _. }
  rewrite cursor_executemany_cons.
  destruct ((values ← bind_parameters (id, user_id, title, body);
             insert_or_replace rowid_of_text values) w) as [r1 w1] eqn:Hone.
  apply execute_one_run in Hone
    as [(e & -> & ->)
       |(sid & su & st & sb & rowid & -> & Hid & Hu & Ht & Hb & Hav & _ & ->)];
    [done|].
  intros [_ Hrest]%IH. split; [done|].
  constructor; [|done]. by exists sid, su, st, sb.
Qed.

Lemma save_to_db_durable rowid_of_text posts w r w' :
  save_to_db rowid_of_text posts w = (r, w') →
  r ≠ Return tt →
  durable (conn w') = durable (conn w).
Proof.
  destruct (save_to_db_run rowid_of_text posts w)
    as [[e ->]|(seq_of_parameters & _ & _ & _ & ->)]; [by intros [= <- <-]|].
  destruct (cursor_executemany rowid_of_text seq_of_parameters w)
    as [r1 w1] eqn:Hrun.
  apply cursor_executemany_frame in Hrun as (_ & Hd & _).
  destruct r1 as [[]|e|]; intros [= <- <-]; done.
Qed.

(** X8: [save_to_db] never removes a row: a key that is in the table before
    the call is in the table after it, whether the call returns or raises. *)
Theorem save_to_db_never_deletes rowid_of_text posts w k :
  is_Some (durable (conn w) !! k) →
  is_Some (working (conn w) !! k) →
  is_Some (durable (conn (save_to_db rowid_of_text posts w).2) !! k) ∧
  is_Some (working (conn (save_to_db rowid_of_text posts w).2) !! k).
Proof.
  intros Hd Hw.
  destruct (save_to_db_run rowid_of_text posts w)
    as [[e ->]|(seq_of_parameters & _ & _ & _ & ->)]; [done|].
  destruct (cursor_executemany rowid_of_text seq_of_parameters w)
    as [r w1] eqn:Hrun.
  pose proof (cursor_executemany_keeps_keys _ _ _ _ _ k Hrun Hw) as Hw1.
  apply cursor_executemany_frame in Hrun as (_ & Hd1 & _).
  destruct r as [[]|e|]; simpl; by rewrite ?Hd1.
Qed.

Lemma save_to_db_never_deletes_witness :
  is_Some (durable (conn (save_to_db decimal_rowid
                            [JObj (<["id" := JInt 7]> first_post)]
                            world_with_post_7).2) !! 7%Z).
Proof.
  refine (proj1 (save_to_db_never_deletes decimal_rowid
                   [JObj (<["id" := JInt 7]> first_post)] world_with_post_7 7%Z
                   _ _)); by eexists.
Defined.

(** X9: when [save_to_db] returns, every complete payload of the batch with
    an integer [id] that no later complete payload of the batch names has
    its row in the table, under that [id]. *)
Theorem save_to_db_stores_each_payload rowid_of_text before m z after w w1 :
  complete m →
  m !! "id" = Some (JInt z) →
  (∀ m', JObj m' ∈ after → complete m' →
         payload_rowid rowid_of_text m' ≠ Some z) →
  save_to_db rowid_of_text (before ++ JObj m :: after) w = (Return tt, w1) →
  ∃ row, payload_row m = Some row ∧ durable (conn w1) !! z = Some row.
Proof.
  intros Hm Hid Hafter Hsave.
  destruct (save_to_db_run rowid_of_text (before ++ JObj m :: after) w)
    as [[e He]|(seq_of_parameters & _ & _ & Htuples & Hrun)]; [congruence|].
  rewrite Hrun in Hsave. clear Hrun.
  rewrite List.filter_app in Htuples. cbn [List.filter] in Htuples.
  rewrite (complete_accepted m Hm) in Htuples.
  apply Forall2_app_inv_l in Htuples as (seq1 & seq2 & _ & Hlast & ->).
  apply Forall2_cons_inv_l in Hlast as (params & rest & Htuple & Hrest & ->).
  destruct Htuple
    as (m' & id & user_id & title & body & [= <-] & Hid' & Hu & Ht & Hb & ->).
  rewrite Hid in Hid'. injection Hid' as <-.
  rewrite cursor_executemany_app in Hsave.
  destruct (cursor_executemany rowid_of_text seq1 w) as [[[]|e|] w0]; [|done..].
  rewrite cursor_executemany_cons in Hsave.
  destruct ((values ← bind_parameters (JInt z, user_id, title, body);
             insert_or_replace rowid_of_text values) w0) as [r1 w2] eqn:Hone.
  apply execute_one_run in Hone
    as [(e & -> & ->)
       |(sid & su & st & sb & rowid & -> & Hz & Hsu & Hst & Hsb & _ & Hrowid & ->)];
    [done|].
  assert (rowid = z) as ->.
  { simpl in Hz. destruct (_ && _); [|done]. injection Hz as <-.
    by injection Hrowid. }
  destruct (cursor_executemany rowid_of_text rest
              (with_row z (su, st, sb) w0)) as [r3 w3] eqn:Hthird.
  apply cursor_executemany_frame in Hthird as (_ & _ & _ & _ & _ & Hframe).
  destruct r3 as [[]|e|]; [|done..]. injection Hsave as <-.
  exists (su, st, sb). split.
  { unfold payload_row. rewrite Hu, Ht, Hb. simpl. by rewrite Hsu, Hst, Hsb. }
  simpl. apply Hframe; [simpl; apply lookup_insert_eq|].
  intros id' user_id' title' body' Hin.
  destruct (tuple_in_batch _ _ _ _ _ _ Hrest Hin) as (m' & Hm' & Hc & Hid').
  specialize (Hafter m' Hm' Hc). unfold payload_rowid in Hafter.
  by rewrite Hid' in Hafter.
Qed.

Lemma save_to_db_stores_each_payload_witness :
  ∃ row,
    payload_row first_post = Some row ∧
    durable (conn (save_to_db decimal_rowid
                     ([] ++ JObj first_post :: [JObj anonymous_post])
                     world_with_post_7).2) !! 1%Z = Some row.
Proof.
  refine (save_to_db_stores_each_payload decimal_rowid [] first_post 1
            [JObj anonymous_post] world_with_post_7 _ _ _ _ _).
  - apply (bool_decide_unpack _). by vm_compute.
  - by vm_compute.
  - intros m' [Hm'|Hm'%elem_of_nil]%elem_of_cons _; [|done].
    injection Hm' as ->. by vm_compute.
  - by vm_compute.
Defined.

(** X10: [save_to_db] returns only when the storage is usable and each of
    the four values of every complete payload of the batch can be bound: a
    list or an object as a value, or an integer outside 64 bits, makes it
    raise. *)
Theorem save_to_db_returns_only_when_bound rowid_of_text posts w w' m :
  save_to_db rowid_of_text posts w = (Return tt, w') →
  JObj m ∈ posts →
  complete m →
  unavailable (conn w) = None ∧
  (∃ id sql_id, m !! "id" = Some id ∧ adapted id = inr sql_id) ∧
  is_Some (payload_row m).
Proof.
  intros Hsave Hin Hm.
  destruct (save_to_db_run rowid_of_text posts w)
    as [[e He]|(seq_of_parameters & _ & _ & Htuples & Hrun)]; [congruence|].
  rewrite Hrun in Hsave. clear Hrun.
  destruct (cursor_executemany rowid_of_text seq_of_parameters w)
    as [[[]|e|] w1] eqn:Hwrite; [|done..].
  apply cursor_executemany_Return in Hwrite as [Hav Hbound].
  assert (JObj m ∈ List.filter accepted posts) as Hacc.
  { apply list_elem_of_In, filter_In. split; [by apply list_elem_of_In|].
    by apply complete_accepted. }
  apply list_elem_of_lookup in Hacc as [i Hi].
  destruct (Forall2_lookup_l _ _ _ _ _ Htuples Hi) as (params & Hparams & Htuple).
  destruct Htuple
    as (m' & id & user_id & title & body & [= <-] & Hid & Hu & Ht & Hb & ->).
  rewrite Forall_lookup in Hbound. specialize (Hbound _ _ Hparams).
  destruct Hbound as (sid & su & st & sb & Hsid & Hsu & Hst & Hsb).
  split.
  { apply Hav. intros ->. by rewrite lookup_nil in Hparams. }
  split; [by exists id, sid|].
  exists (su, st, sb). unfold payload_row. rewrite Hu, Ht, Hb. simpl.
  by rewrite Hsu, Hst, Hsb.
Qed.

Lemma save_to_db_returns_only_when_bound_witness :
  unavailable (conn empty_world) = None ∧
  (∃ id sql_id, first_post !! "id" = Some id ∧ adapted id = inr sql_id) ∧
  is_Some (payload_row first_post).
Proof.
  refine (save_to_db_returns_only_when_bound decimal_rowid [JObj first_post]
            empty_world (save_to_db decimal_rowid [JObj first_post] empty_world).2
            first_post _ _ _).
  - by vm_compute.
  - by left.
  - apply (bool_decide_unpack _). by vm_compute.
Defined.

(** ** The sinks together *)

Lemma save_to_csv_conn posts w : conn (save_to_csv posts w).2 = conn w.
Proof.
  rewrite save_to_csv_run. by destruct (writerows_result posts) as [[]|e|].
Qed.

Lemma save_to_db_csv_file rowid_of_text posts w :
  csv_file (save_to_db rowid_of_text posts w).2 = csv_file w.
Proof.
  destruct (save_to_db_run rowid_of_text posts w)
    as [[e ->]|(seq_of_parameters & _ & _ & _ & ->)]; [done|].
  destruct (cursor_executemany rowid_of_text seq_of_parameters w)
    as [r1 w2] eqn:Hrun.
  apply cursor_executemany_frame in Hrun as (_ & _ & _ & Hcsv & _).
  by destruct r1 as [[]|e|].
Qed.

(** X11: the two sinks do not touch each other's store: [save_to_db] leaves
    the export file as it is, [save_to_csv] leaves the connection and its
    tables as they are. *)
Theorem sinks_are_independent rowid_of_text posts w :
  csv_file (save_to_db rowid_of_text posts w).2 = csv_file w ∧
  conn (save_to_csv posts w).2 = conn w.
Proof. split; [apply save_to_db_csv_file|apply save_to_csv_conn]. Qed.

(** X12: the script commits a batch as a whole or not at all: when it ends,
    the durable table is either the one before the run, or the one
    [save_to_db] committed after writing the whole batch; rows written
    before a failing one are never kept. *)
Theorem run_commits_batch_or_nothing rowid_of_text session schedule base_url
    post_ids w r w' :
  run rowid_of_text session schedule base_url post_ids w = (r, w') →
  working (conn w') = durable (conn w') ∧
  (durable (conn w') = durable (conn w) ∨
   ∃ posts w0 w1,
     fetch_all_posts session schedule base_url post_ids w = (Return posts, w0) ∧
     save_to_db rowid_of_text posts w0 = (Return tt, w1) ∧
     durable (conn w') = durable (conn w1)).
Proof.
  unfold run.
  destruct (main rowid_of_text session schedule base_url post_ids w)
    as [r0 w2] eqn:Hmain.
  intros [= <- <-]. split; [done|]. simpl.
  unfold main in Hmain. rewrite bind_run in Hmain.
  destruct (fetch_all_posts session schedule base_url post_ids w)
    as [r1 w0] eqn:Hfetch.
  pose proof (fetch_all_posts_frame _ _ _ _ _ _ _ Hfetch) as [Hconn _].
  destruct r1 as [posts|e|]; [|injection Hmain as <- <-; left; congruence..].
  destruct posts as [|post0 posts];
    [injection Hmain as <- <-; left; congruence|].
  rewrite bind_run in Hmain.
  destruct (save_to_db rowid_of_text (post0 :: posts) w0)
    as [r3 w1] eqn:Hsave.
  destruct r3 as [[]|e|].
  - right. exists (post0 :: posts), w0, w1. split; [done|]. split; [done|].
    replace w2 with (save_to_csv (post0 :: posts) w1).2 by (by rewrite Hmain).
    by rewrite save_to_csv_conn.
  - injection Hmain as <- <-. left.
    rewrite (save_to_db_durable _ _ _ _ _ Hsave) by done. congruence.
  - injection Hmain as <- <-. left.
    rewrite (save_to_db_durable _ _ _ _ _ Hsave) by done. congruence.
Qed.

Lemma run_commits_batch_or_nothing_witness :
  working (conn (run decimal_rowid sample_session [0; 1] sample_url
                   [IdInt 1; IdInt 8] empty_world).2)
  = durable (conn (run decimal_rowid sample_session [0; 1] sample_url
                     [IdInt 1; IdInt 8] empty_world).2).
Proof.
  refine (proj1 (run_commits_batch_or_nothing decimal_rowid sample_session [0; 1]
                   sample_url [IdInt 1; IdInt 8] empty_world
                   (run decimal_rowid sample_session [0; 1] sample_url
                      [IdInt 1; IdInt 8] empty_world).1 _ _)).
  by destruct (run _ _ _ _ _ _).
Defined.

(** ** The records of the export *)

Lemma written_prefix posts : written posts `prefix_of` (record_of <$> posts).
Proof.
  induction posts as [|post posts IH]; [done|]. cbn.
  destruct (exportable post); [by apply prefix_cons|apply prefix_nil].
Qed.

Lemma written_width posts : Forall (λ record, length record = 4) (written posts).
Proof.
  induction posts as [|post posts IH]; [done|]. cbn.
  destruct (exportable post) eqn:Hpost; [|done].
  constructor; [|done]. by destruct post.
Qed.

(** X13: whatever the payloads, and whether it returns or raises,
    [save_to_csv] leaves a file that starts with the header, in which
    every record has four fields, and whose data records are the records
    of the first payloads of the batch, in order. *)
Theorem save_to_csv_shape posts w :
  ∃ records,
    csv_file (save_to_csv posts w).2 = Some (header_record :: records) ∧
    Forall (λ record, length record = 4) (header_record :: records) ∧
    records `prefix_of` (record_of <$> posts).
Proof.
  exists (written posts). split.
  - rewrite save_to_csv_run. by destruct (writerows_result posts) as [[]|e|].
  - split; [|apply written_prefix].
    constructor; [done|apply written_width].
Qed.



(** ** Writing a batch again *)

Lemma write_rows_union rows (t : Table) :
  write_rows rows t = list_to_map (reverse rows) ∪ t.
Proof.
  unfold write_rows. induction rows as [|row rows IH] using rev_ind.
  { cbn. by rewrite (left_id_L ∅ (∪)). }
  rewrite foldl_app, reverse_app. cbn [foldl reverse rev_append app].
  rewrite IH. destruct row as [k r]. cbn [list_to_map fst snd].
  rewrite list_to_map_cons. by rewrite insert_union_l.
Qed.

Lemma write_rows_idempotent rows (t : Table) :
  write_rows rows (write_rows rows t) = write_rows rows t.
Proof.
  rewrite !write_rows_union, (assoc_L (∪)). f_equal. apply (idemp_L (∪)).
Qed.

Section Rerun.

Variable rowid_of_text : string → option Z.

(** A batch write that returns, with no NULL given for [id], writes rows
    that can be read off the tuples. *)
Lemma cursor_executemany_rows seq_of_parameters : ∀ w w',
  cursor_executemany rowid_of_text seq_of_parameters w = (Return tt, w') →
  (∀ id user_id title body,
     (id, user_id, title, body) ∈ seq_of_parameters → id ≠ JNull) →
  ∃ rows,
    Forall2 (λ params row, resolved rowid_of_text params = Some row)
      seq_of_parameters rows ∧
    w' = set_conn {| durable := durable (conn w);
                     working := write_rows rows (working (conn w));
                     unavailable := unavailable (conn w) |} w.
Proof.
  induction seq_of_parameters as [|[[[id user_id] title] body] rest IH];
    intros w w'.
  { cbn. unfold ret. intros [= <-] _. exists []. split; [done|].
    by destruct w as [[] ? ?]. }
  rewrite cursor_executemany_cons.
  destruct ((values ← bind_parameters (id, user_id, title, body);
             insert_or_replace rowid_of_text values) w) as [r1 w1] eqn:Hone.
  apply execute_one_run in Hone
    as [(e & -> & ->)
       |(sid & su & st & sb & rowid & -> & Hid & Hu & Ht & Hb & _ & Hrowid & ->)];
    [done|].
  intros Hrest Hnull.
  destruct (IH _ _ Hrest) as (rows & Hrows & ->).
  { intros id' user_id' title' body' Hin.
    apply (Hnull id' user_id' title' body'). by right. }
  exists ((rowid, (su, st, sb)) :: rows). split; [|done].
  constructor; [|done]. unfold resolved.
  rewrite (resolve_rowid_not_null _ _ _ _ _
             (Hnull id user_id title body ltac:(by left)) Hid Hrowid).
  by rewrite Hid, Hu, Ht, Hb.
Qed.

Lemma cursor_executemany_resolved seq_of_parameters rows : ∀ w,
  Forall2 (λ params row, resolved rowid_of_text params = Some row)
    seq_of_parameters rows →
  unavailable (conn w) = None →
  cursor_executemany rowid_of_text seq_of_parameters w
  = (Return tt,
     set_conn {| durable := durable (conn w);
                 working := write_rows rows (working (conn w));
                 unavailable := unavailable (conn w) |} w).
Proof.
  intros w Hrows. revert w.
  induction Hrows as [|[[[id user_id] title] body] [rowid row] rest rows Hrow _ IH];
    intros w Hav.
  { cbn. unfold ret. by destruct w as [[] ? ?]. }
  unfold resolved in Hrow.
  destruct (explicit_rowid rowid_of_text id) as [k|] eqn:Hk; [|done].
  destruct (adapted id) as [|sid] eqn:Hid; [done|].
  destruct (adapted user_id) as [|su] eqn:Hu; [done|].
  destruct (adapted title) as [|st] eqn:Ht; [done|].
  destruct (adapted body) as [|sb] eqn:Hb; [done|].
  injection Hrow as -> <-.
  rewrite cursor_executemany_cons, bind_run, bind_parameters_run.
  rewrite Hid, Hu, Ht, Hb, insert_or_replace_run, Hav.
  rewrite (resolve_rowid_resolved _ _ _ _ _ Hid Hk).
  rewrite IH by done.
  unfold with_row, set_conn. simpl. by rewrite Hav.
Qed.

Lemma is_tuple_of_functional posts : ∀ seq1 seq2,
  Forall2 is_tuple_of posts seq1 → Forall2 is_tuple_of posts seq2 → seq1 = seq2.
Proof.
  induction posts as [|post posts IH]; intros seq1 seq2 H1 H2.
  { apply Forall2_nil_inv_l in H1, H2. congruence. }
  apply Forall2_cons_inv_l in H1 as (p1 & r1 & Hp1 & Hr1 & ->).
  apply Forall2_cons_inv_l in H2 as (p2 & r2 & Hp2 & Hr2 & ->).
  f_equal; [|by apply IH].
  destruct Hp1 as (m1 & ? & ? & ? & ? & -> & ? & ? & ? & ? & ->).
  destruct Hp2 as (m2 & ? & ? & ? & ? & [= <-] & ? & ? & ? & ? & ->).
  congruence.
Qed.

Lemma post_tuple_pure post : ∃ r, pure (post_tuple post) r.
Proof.
  unfold post_tuple, py_getitem.
  destruct (getitem post "id") as [e|id]; [by exists (Raise e)|].
  destruct (getitem post "userId") as [e|user_id]; [by exists (Raise e)|].
  destruct (getitem post "title") as [e|title]; [by exists (Raise e)|].
  destruct (getitem post "body") as [e|body]; [by exists (Raise e)|].
  by exists (Return (id, user_id, title, body)).
Qed.

Lemma mapM_post_tuple_pure posts : ∃ r, pure (mapM post_tuple posts) r.
Proof.
  induction posts as [|post posts [r IH]]; cbn [mapM].
  { by exists (Return []). }
  destruct (post_tuple_pure post) as [[params|e|] Hpost].
  - destruct r as [rest|e|].
    + exists (Return (params :: rest)). intros w.
      by rewrite bind_run, Hpost, bind_run, IH.
    + exists (Raise e). intros w. by rewrite bind_run, Hpost, bind_run, IH.
    + exists Blocked. intros w. by rewrite bind_run, Hpost, bind_run, IH.
  - exists (Raise e). intros w. by rewrite bind_run, Hpost.
  - exists Blocked. intros w. by rewrite bind_run, Hpost.
Qed.

(** The tuples of a batch do not depend on the state: once they are known,
    [save_to_db] is the batch write and the commit in any state. *)
Lemma save_to_db_same_batch posts valid_posts seq_of_parameters w :
  collect_valid_posts posts [] w = (Return valid_posts, w) →
  mapM post_tuple valid_posts w = (Return seq_of_parameters, w) →
  ∀ w2,
    save_to_db rowid_of_text posts w2
    = match cursor_executemany rowid_of_text seq_of_parameters w2 with
      | (Return _, w3) => (Return tt, add_log InfoSavedToDatabase (committed w3))
      | (Raise e, w3) => (Raise e, w3)
      | (Blocked, w3) => (Blocked, w3)
      end.
Proof.
  intros Hvalid Htuples w2. unfold save_to_db.
  destruct (collect_valid_posts_pure posts []) as (r1 & _ & H1).
  rewrite H1 in Hvalid. injection Hvalid as ->.
  destruct (mapM_post_tuple_pure valid_posts) as (r2 & H2).
  rewrite H2 in Htuples. injection Htuples as ->.
  rewrite bind_run, H1, bind_run, H2, bind_run.
  by destruct (cursor_executemany rowid_of_text seq_of_parameters w2)
    as [[[]|e|] w3].
Qed.

(** X16: writing a batch again changes nothing: when [save_to_db] has
    returned for a batch in which no complete payload has an [id] that is
    bound as NULL, calling it once more with the same batch returns and
    leaves every row of the table as it is. *)
Theorem save_to_db_again posts w w1 :
  save_to_db rowid_of_text posts w = (Return tt, w1) →
  (∀ m id, JObj m ∈ posts → complete m → m !! "id" = Some id →
           adapted id ≠ inr SqlNull) →
  save_to_db rowid_of_text posts w1
    = (Return tt, add_log InfoSavedToDatabase w1).
Proof.
  intros Hsave Hnull.
  destruct (save_to_db_run rowid_of_text posts w)
    as [[e He]|(seq_of_parameters & Hvalid & Htuple & Htuples & Hrun)];
    [congruence|].
  rewrite Hrun in Hsave. clear Hrun.
  rewrite (save_to_db_same_batch _ _ _ _ Hvalid Htuple).
  destruct (cursor_executemany rowid_of_text seq_of_parameters w)
    as [[[]|e|] w0] eqn:Hwrite; [|done..].
  injection Hsave as <-.
  destruct seq_of_parameters as [|params rest].
  { cbn in *. unfold ret in Hwrite. injection Hwrite as <-.
    by destruct w as [[] ? ?]. }
  pose proof (cursor_executemany_Return _ _ _ _ Hwrite) as [Hav _].
  specialize (Hav ltac:(done)).
  apply cursor_executemany_rows in Hwrite as (rows & Hrows & ->).
  2:{ intros id user_id title body Hin.
      destruct (tuple_in_batch _ _ _ _ _ _ Htuples Hin) as (m & Hm & Hc & Hid).
      intros ->. by apply (Hnull m JNull Hm Hc). }
  rewrite (cursor_executemany_resolved _ rows) by done.
  unfold committed, add_log, set_conn. simpl.
  by rewrite write_rows_idempotent.
Qed.

End Rerun.

Lemma save_to_db_again_witness :
  save_to_db decimal_rowid [JObj first_post; JObj (<["title" := JStr "second"]> first_post)]
    (save_to_db decimal_rowid
       [JObj first_post; JObj (<["title" := JStr "second"]> first_post)]
       world_with_post_7).2
  = (Return tt,
     add_log InfoSavedToDatabase
       (save_to_db decimal_rowid
          [JObj first_post; JObj (<["title" := JStr "second"]> first_post)]
          world_with_post_7).2).
Proof.
  apply (save_to_db_again decimal_rowid _ world_with_post_7).
  - by vm_compute.
  - intros m id [Hm|[Hm|Hm%elem_of_nil]%elem_of_cons]%elem_of_cons _;
      [| |done].
    + injection Hm as ->. intros [= <-]. discriminate.
    + injection Hm as ->. intros Hid. vm_compute in Hid.
      injection Hid as <-. discriminate.
Defined.


(** ** Reading a run off its log *)

Lemma writerows_result_not_Blocked posts : writerows_result posts ≠ Blocked.
Proof.
  induction posts as [|post0 posts IH]; [done|]. cbn.
  destruct (exportable post0); [done|]. by destruct post0.
Qed.


Lemma fetch_all_posts_last_log session schedule base_url post_ids w posts w0 :
  fetch_all_posts session schedule base_url post_ids w = (Return posts, w0) →
  ∃ failed,
    last (log w0)
    = Some (InfoFetchedCount (length post_ids) (length posts) failed).
Proof.
  unfold fetch_all_posts. rewrite bind_run.
  destruct (gather schedule _ w) as [[results|e|] w1]; [|done..].
  rewrite bind_run. cbn. intros [= <- <-]. eexists. simpl. apply last_snoc.
Qed.

Lemma save_to_db_outcome rowid_of_text posts w r w' :
  save_to_db rowid_of_text posts w = (r, w') →
  (r = Return tt ∧ last (log w') = Some InfoSavedToDatabase ∧
   durable (conn w') = working (conn w')) ∨
  (∃ e, r = Raise e ∧ log w' = log w ∧ durable (conn w') = durable (conn w)).
Proof.
  destruct (save_to_db_run rowid_of_text posts w)
    as [[e ->]|(seq_of_parameters & _ & _ & _ & ->)].
  { intros [= <- <-]. right. by exists e. }
  destruct (cursor_executemany rowid_of_text seq_of_parameters w)
    as [r1 w1] eqn:Hrun.
  apply cursor_executemany_frame in Hrun as (Hnb & Hd & _ & _ & Hlog & _).
  destruct r1 as [[]|e|]; intros [= <- <-]; [|right; by exists e|done].
  left. split; [done|]. split; [apply last_snoc|done].
Qed.

(** X17: the last log record tells how a run with at least one success
    ended: "saved to CSV" when it returned; "saved to database" when the
    table was committed and the export raised; the fetch summary when the
    relational write raised, nothing being committed. *)
Theorem main_outcome_in_log rowid_of_text session schedule base_url post_ids
    w posts w0 r w' :
  fetch_all_posts session schedule base_url post_ids w = (Return posts, w0) →
  posts ≠ [] →
  main rowid_of_text session schedule base_url post_ids w = (r, w') →
  (r = Return tt ∧ last (log w') = Some InfoSavedToCsv ∧
   durable (conn w') = working (conn w')) ∨
  (∃ e, r = Raise e ∧ last (log w') = Some InfoSavedToDatabase ∧
        durable (conn w') = working (conn w')) ∨
  (∃ e failed,
     r = Raise e ∧
     last (log w')
     = Some (InfoFetchedCount (length post_ids) (length posts) failed) ∧
     durable (conn w') = durable (conn w)).
Proof.
  intros Hfetch Hposts Hmain.
  rewrite (main_run _ _ _ _ _ _ _ _ Hfetch) in Hmain.
  destruct posts as [|post0 posts]; [done|].
  destruct (save_to_db rowid_of_text (post0 :: posts) w0) as [r1 w1] eqn:Hsave.
  apply save_to_db_outcome in Hsave
    as [(-> & Hlast & Hd)|(e & -> & Hlog & Hd)].
  - rewrite save_to_csv_run in Hmain.
    pose proof (writerows_result_not_Blocked (post0 :: posts)) as Hnb.
    destruct (writerows_result (post0 :: posts)) as [[]|e|]; [| |done];
      injection Hmain as <- <-.
    + left. split; [done|]. split; [apply last_snoc|done].
    + right; left. exists e. by split.
  - injection Hmain as <- <-. right; right.
    destruct (fetch_all_posts_last_log _ _ _ _ _ _ _ Hfetch) as [failed Hlast].
    apply fetch_all_posts_frame in Hfetch as [Hconn _].
    exists e, failed. split; [done|]. split; congruence.
Qed.

Lemma main_outcome_in_log_witness :
  ∃ e, (main decimal_rowid sample_session [0; 1] sample_url [IdInt 1; IdInt 8]
          empty_world).1 = Raise e ∧
       last (log (main decimal_rowid sample_session [0; 1] sample_url
                    [IdInt 1; IdInt 8] empty_world).2)
       = Some InfoSavedToDatabase.
Proof.
  assert (fetch_all_posts sample_session [0; 1] sample_url [IdInt 1; IdInt 8]
            empty_world
          = (Return [post 1 1 "first" "text"; JObj tracked_post],
             (fetch_all_posts sample_session [0; 1] sample_url
                [IdInt 1; IdInt 8] empty_world).2)) as Hfetch
    by (vm_compute; reflexivity).
  assert ([post 1 1 "first" "text"; JObj tracked_post] ≠ []) as Hposts
    by discriminate.
  pose proof (main_outcome_in_log decimal_rowid sample_session [0; 1] sample_url
                [IdInt 1; IdInt 8] empty_world _ _
                (main decimal_rowid sample_session [0; 1] sample_url
                   [IdInt 1; IdInt 8] empty_world).1
                (main decimal_rowid sample_session [0; 1] sample_url
                   [IdInt 1; IdInt 8] empty_world).2
                Hfetch Hposts (surjective_pairing _)) as H.
  clear Hfetch Hposts. vm_compute. vm_compute in H.
  destruct H as [(Hr & _)|[(e & Hr & Hlast & _)|(e & failed & _ & Hlast & _)]].
  - discriminate Hr.
  - exists e. split; [exact Hr|exact Hlast].
  - discriminate Hlast.
Defined.
